(** * frappe: the recommendation pipeline of [ffos.recommender]

    A shallow embedding of

    - [source/ffos/recommender/filters.py]   (filters and re-rankers),
    - [source/ffos/recommender/controller.py] (the controller pipeline),
    - [src/frappe/tools/region/__init__.py]  (the score-phase region filter),

    followed by the properties established about them.

    Conventions.  Python integers are [Z].  A score is a Python float that
    is either finite (a rational here) or [float('-inf')]; NaN never enters
    the pipeline.  A Python exception is a value of [exn] carried by
    [result].  Code that reads or writes the Django cache or the database
    threads a [world]. *)

From Stdlib Require Import QArith.
From stdpp Require Import gmap strings list fin_maps sorting.

Open Scope Z_scope.

(** ** Exceptions and results *)

Inductive exn :=
  | AttributeError | IndexError | KeyError | ValueError
  | AssertionError | TypeError | NotImplementedError | RuntimeError
  (* named by the specification; no statement of the sources raises it *)
  | ModelUnavailable.

Inductive result (A : Type) :=
  | Ok (a : A)
  | Raise (e : exn).
Arguments Ok {A} a.
Arguments Raise {A} e.

Global Instance result_ret : MRet result := λ A a, Ok a.
Global Instance result_bind : MBind result :=
  λ A B f r, match r with Ok a => f a | Raise e => Raise e end.
Global Instance result_fmap : FMap result :=
  λ A B f r, match r with Ok a => Ok (f a) | Raise e => Raise e end.

(** ** Scores *)

Inductive score :=
  | NegInf
  | Fin (q : Q).

(** Python 2 [cmp] on two floats. *)
Definition cmp (x y : score) : comparison :=
  match x, y with
  | NegInf, NegInf => Eq
  | NegInf, Fin _ => Lt
  | Fin _, NegInf => Gt
  | Fin a, Fin b => (a ?= b)%Q
  end.

(** float + int, as numpy adds an integer array to a float array. *)
Definition score_add (s : score) (z : Z) : score :=
  match s with
  | NegInf => NegInf
  | Fin q => Fin (q + inject_Z z)%Q
  end.

(** [int(q)]: truncation towards zero. *)
Definition int (q : Q) : Z := Z.quot (Qnum q) (Zpos (Qden q)).

(** ** Python built-ins on lists *)

(** [sorted(l, cmp=c)].  Python's sort is stable; for a comparison that is
    a total preorder every stable sort returns the same list, and the stable
    insertion sort below is the one used. *)
Fixpoint insort {A} (c : A → A → comparison) (x : A) (l : list A) : list A :=
  match l with
  | [] => [x]
  | y :: l' =>
      match c x y with
      | Gt => y :: insort c x l'
      | _ => x :: y :: l'
      end
  end.

Definition sorted {A} (c : A → A → comparison) (l : list A) : list A :=
  foldr (insort c) [] l.

(** [enumerate(l)], counting from [k]. *)
Fixpoint enumerate_from {A} (k : Z) (l : list A) : list (Z * A) :=
  match l with
  | [] => []
  | x :: l' => (k, x) :: enumerate_from (k + 1) l'
  end.

Definition enumerate {A} (l : list A) : list (Z * A) := enumerate_from 0 l.

(** [l.remove(x)]: drops the first occurrence, [ValueError] when absent. *)
Fixpoint list_remove (x : Z) (l : list Z) : result (list Z) :=
  match l with
  | [] => Raise ValueError
  | y :: l' =>
      if decide (x = y) then Ok l' else cons y <$> list_remove x l'
  end.

(** [for x in xs: l.remove(x)] *)
Fixpoint list_remove_all (xs : list Z) (l : list Z) : result (list Z) :=
  match xs with
  | [] => Ok l
  | x :: xs' => l' ← list_remove x l; list_remove_all xs' l'
  end.

(** The cut point of the slices [l[:i]] and [l[i:]] of a list of length
    [len]: a negative bound counts from the end, and both ends clamp. *)
Definition slice_bound (i : Z) (len : nat) : nat :=
  if i <? 0 then Z.to_nat (Z.max 0 (Z.of_nat len + i)) else Z.to_nat i.

Definition slice_to {A} (i : Z) (l : list A) : list A :=
  take (slice_bound i (length l)) l.

Definition slice_from {A} (i : Z) (l : list A) : list A :=
  drop (slice_bound i (length l)) l.

(** The position an index [i] denotes in a sequence of length [len]. *)
Definition py_index (i : Z) (len : nat) : option nat :=
  if bool_decide (0 ≤ i < Z.of_nat len) then Some (Z.to_nat i)
  else if bool_decide (- Z.of_nat len ≤ i < 0) then Some (Z.to_nat (Z.of_nat len + i))
  else None.

(** ** numpy arrays of scores

    [np.squeeze] turns a 1 x 1 matrix into a zero-dimensional array, which
    can neither be indexed nor enumerated. *)

Inductive ndarray :=
  | Array0 (x : score)
  | Array1 (xs : list score).

(** [a[i] = v] *)
Definition setitem (a : ndarray) (i : Z) (v : score) : result ndarray :=
  match a with
  | Array0 _ => Raise IndexError
  | Array1 xs =>
      match py_index i (length xs) with
      | Some k => Ok (Array1 (<[k := v]> xs))
      | None => Raise IndexError
      end
  end.

(** ** The data model ([ffos.models], as the queries of the sources use it) *)

(** A category name; [None] is what [values_list('categories__name')]
    yields for an app without category. *)
Abbreviation category := (option string).

Record FFOSApp := {
  app_pk : Z;
  app_external_id : string;
  categories : list string;
  supported_locales : list string;
  regions : list string;
}.

Record FFOSUser := {
  pk : Z;
  external_id : string;
  locale : string;
  region : option string;
  (* [user.installed_apps.all()], in listing order *)
  installed_apps : list FFOSApp;
}.

Abbreviation matrix := (list (list Q)).

Record TensorModel := {
  (* the primary key [id] *)
  model_id : Z;
  dim : Z;
  numpy_matrix : matrix;
}.

(** The Django cache.  The sources use four families of keys,
    ['USER_LOCALE_<id>'], ['USER_REGION_<id>'],
    ['USER_CATEGORY_PROFILE_<id>'] and the single key
    ['APP_CATEGORY_PROFILE']; each family is a map from the external id. *)
Record cache_t := {
  USER_LOCALE : gmap string (list FFOSApp);
  USER_REGION : gmap string (list FFOSApp);
  USER_CATEGORY_PROFILE : gmap string (list (category * Q));
  APP_CATEGORY_PROFILE : option (gmap category (list Z));
}.

Record world := {
  FFOSApp_objects : list FFOSApp;
  TensorModel_objects : list TensorModel;
  cache : cache_t;
}.

Definition set_cache (c : cache_t) (w : world) : world :=
  {| FFOSApp_objects := FFOSApp_objects w;
     TensorModel_objects := TensorModel_objects w;
     cache := c |}.

Definition empty_cache : cache_t :=
  {| USER_LOCALE := ∅; USER_REGION := ∅; USER_CATEGORY_PROFILE := ∅;
     APP_CATEGORY_PROFILE := None |}.

(** ** filters.py *)

(** *** Instances of the filter classes *)

Inductive klass :=
  | cls_Filter | cls_RepetitionFilter | cls_LocaleFilter | cls_ReRanker
  | cls_RegionReRanker | cls_CategoryReRanker | cls_RepetitionReRanker.

Global Instance klass_eq_dec : EqDecision klass.
Proof. solve_decision. Defined.

(** The direct base class; [Filter] derives from [object]. *)
Definition base (k : klass) : option klass :=
  match k with
  | cls_Filter => None
  | cls_RepetitionFilter | cls_LocaleFilter | cls_ReRanker => Some cls_Filter
  | cls_RegionReRanker | cls_CategoryReRanker | cls_RepetitionReRanker =>
      Some cls_ReRanker
  end.

(** [k] is a proper subclass of [k']. *)
Definition proper_subclass (k k' : klass) : bool :=
  match base k with
  | None => false
  | Some b =>
      bool_decide (b = k') ||
      match base b with
      | None => false
      | Some b' => bool_decide (b' = k')
      end
  end.

Inductive pyvalue :=
  | PyInt (z : Z)
  | PyClass (k : klass)
  | PyController (ident : nat).

Global Instance pyvalue_eq_dec : EqDecision pyvalue.
Proof. solve_decision. Defined.

(** An object: its identity, its class and its instance dictionary. *)
Record instance := {
  ob_id : nat;
  ob_class : klass;
  ob_dict : gmap string pyvalue;
}.

(** The constructors the sources offer: every class but [CategoryReRanker]
    inherits [object.__init__]; [CategoryReRanker(n)] stores [num_rec]. *)
Definition new (ident : nat) (k : klass) : instance :=
  {| ob_id := ident; ob_class := k; ob_dict := ∅ |}.

Definition new_CategoryReRanker (ident : nat) (n : Z) : instance :=
  {| ob_id := ident; ob_class := cls_CategoryReRanker;
     ob_dict := {[ "num_rec" := PyInt n ]} |}.

(** [o.name] for a data attribute.  The classes of filters.py define the
    methods and the class attribute [PART]; none of them is named
    [_Filter__class], so only the instance dictionary can answer. *)
Definition getattr (o : instance) (name : string) : result pyvalue :=
  match ob_dict o !! name with
  | Some v => Ok v
  | None => Raise AttributeError
  end.

(** [Filter.cmp_params]; no subclass overrides it. *)
Definition Filter_cmp_params (self other : instance) : bool := true.

(** [Filter.__eq__].  Inside the class body the name [other.__class] is
    mangled to [other._Filter__class]. *)
Definition Filter_eq (self other : instance) : result bool :=
  c ← getattr other "_Filter__class";
  Ok (bool_decide (PyClass (ob_class self) = c) && Filter_cmp_params self other).

(** [x == y] on two instances: when the class of [y] is a proper subclass
    of the class of [x], Python asks [y] first. *)
Definition py_eq (x y : instance) : result bool :=
  if proper_subclass (ob_class y) (ob_class x) then Filter_eq y x
  else Filter_eq x y.

(** [x in items] for a tuple: identity is tried before [==]. *)
Fixpoint py_in (x : instance) (items : list instance) : result bool :=
  match items with
  | [] => Ok false
  | y :: rest =>
      if decide (ob_id x = ob_id y) then Ok true
      else b ← py_eq x y; if (b : bool) then Ok true else py_in x rest
  end.

(** *** RepetitionFilter *)

Fixpoint suppress (pks : list Z) (app_score : ndarray) : result ndarray :=
  match pks with
  | [] => Ok app_score
  | p :: rest => a ← setitem app_score (p - 1) NegInf; suppress rest a
  end.

Definition RepetitionFilter_call (user : FFOSUser) (app_score : ndarray)
  : result ndarray :=
  suppress (app_pk <$> installed_apps user) app_score.

(** *** LocaleFilter *)

(** [FFOSApp.objects.exclude(supported_locales__name=user.locale).distinct()]:
    the apps none of whose supported locales is the user's, in table order. *)
Definition apps_without_locale (w : world) (user : FFOSUser) : list FFOSApp :=
  filter (λ a, locale user ∉ supported_locales a) (FFOSApp_objects w).

Definition LocaleFilter_get_user_pref (user : FFOSUser) (w : world)
  : list FFOSApp * world :=
  match USER_LOCALE (cache w) !! external_id user with
  | Some (a :: apps) => (a :: apps, w)
  | _ =>
      let apps := apps_without_locale w user in
      (apps,
       set_cache {| USER_LOCALE := <[external_id user := apps]> (USER_LOCALE (cache w));
                    USER_REGION := USER_REGION (cache w);
                    USER_CATEGORY_PROFILE := USER_CATEGORY_PROFILE (cache w);
                    APP_CATEGORY_PROFILE := APP_CATEGORY_PROFILE (cache w) |} w)
  end.

Definition LocaleFilter_call (user : FFOSUser) (app_score : ndarray) (w : world)
  : result ndarray * world :=
  let '(apps, w') := LocaleFilter_get_user_pref user w in
  (suppress (app_pk <$> apps) app_score, w').

(** *** RegionReRanker (list form) *)

(** [([user.region] if user.region else []) + ['worldwide']] *)
Definition region_slugs (user : FFOSUser) : list string :=
  match region user with
  | Some r => if decide (r = "") then ["worldwide"] else [r; "worldwide"]
  | None => ["worldwide"]
  end.

(** [FFOSApp.objects.exclude(regions__slug__in=...).distinct()]: the apps
    none of whose regions is among the slugs, in table order. *)
Definition apps_outside_region (w : world) (user : FFOSUser) : list FFOSApp :=
  filter (λ a, Forall (λ r, r ∉ region_slugs user) (regions a)) (FFOSApp_objects w).

Definition RegionReRanker_get_user_pref (user : FFOSUser) (w : world)
  : list FFOSApp * world :=
  match USER_REGION (cache w) !! external_id user with
  | Some (a :: apps) => (a :: apps, w)
  | _ =>
      let apps := apps_outside_region w user in
      (apps,
       set_cache {| USER_LOCALE := USER_LOCALE (cache w);
                    USER_REGION := <[external_id user := apps]> (USER_REGION (cache w));
                    USER_CATEGORY_PROFILE := USER_CATEGORY_PROFILE (cache w);
                    APP_CATEGORY_PROFILE := APP_CATEGORY_PROFILE (cache w) |} w)
  end.

(** The loop [for a in prefs: app_score.remove(a.pk); to_add.append(a.pk)]
    followed by [return app_score + to_add]. *)
Fixpoint move_to_end (pks : list Z) (app_score to_add : list Z) : result (list Z) :=
  match pks with
  | [] => Ok (app_score ++ to_add)
  | p :: rest =>
      app_score' ← list_remove p app_score;
      move_to_end rest app_score' (to_add ++ [p])
  end.

Definition RegionReRanker_call (user : FFOSUser) (app_score : list Z) (w : world)
  : result (list Z) * world :=
  let '(apps, w') := RegionReRanker_get_user_pref user w in
  (move_to_end (app_pk <$> apps) app_score [], w').

(** *** CategoryReRanker *)

Definition PART : Q := 33 # 100.

(** The first loop of [__call__]: the category slots. *)
Fixpoint select_prefs (num_rec : Z) (ucp : list (category * Q))
    (soma : Z) (prefs : list category) : list category :=
  match ucp with
  | [] => prefs
  | (cat, mass) :: rest =>
      let k := int (mass * inject_Z num_rec) in
      let soma' := soma + k in
      let prefs' := prefs ++ replicate (Z.to_nat k) cat in
      match (inject_Z soma' ?= inject_Z num_rec / 2)%Q with
      | Gt => prefs'
      | _ => select_prefs num_rec rest soma' prefs'
      end
  end.

(** [for aid in aids: if aid not in to_add: to_add.append(aid); break] *)
Fixpoint take_first_new (aids : list Z) (to_add : list Z) : list Z :=
  match aids with
  | [] => to_add
  | aid :: rest =>
      if decide (aid ∈ to_add) then take_first_new rest to_add
      else to_add ++ [aid]
  end.

(** The second loop of [__call__]; [acd[cat]] raises [KeyError]. *)
Fixpoint pick (acd : gmap category (list Z)) (prefs : list category)
    (to_add : list Z) : result (list Z) :=
  match prefs with
  | [] => Ok to_add
  | cat :: rest =>
      match acd !! cat with
      | None => Raise KeyError
      | Some aids => pick acd rest (take_first_new aids to_add)
      end
  end.

(** [Counter(rows).items()]: the distinct rows with their counts, listed
    by first occurrence (CPython lists them in hash order; the order only
    decides between categories of equal mass). *)
Fixpoint Counter (rows : list category) (acc : list (category * Z))
  : list (category * Z) :=
  match rows with
  | [] => acc
  | c :: rest =>
      Counter rest
        (if decide (c ∈ acc.*1)
         then (λ kv : category * Z, if decide (kv.1 = c) then (kv.1, kv.2 + 1) else kv) <$> acc
         else acc ++ [(c, 1)])
  end.

(** [values_list('categories__name')] over a list of apps: one row per
    category of each app, and one [None] row for an app without any. *)
Definition category_rows (a : FFOSApp) : list category :=
  match categories a with
  | [] => [None]
  | cs => Some <$> cs
  end.

Definition CategoryReRanker_get_user_category_profile (user : FFOSUser) (w : world)
  : list (category * Q) * world :=
  match USER_CATEGORY_PROFILE (cache w) !! external_id user with
  | Some (p :: ps) => (p :: ps, w)
  | _ =>
      let appn := Z.of_nat (length (installed_apps user)) in
      let ucp :=
        sorted (λ x y : category * Q, (y.2 ?= x.2)%Q)
          ((λ kv : category * Z, (kv.1, inject_Z kv.2 / inject_Z appn)%Q)
             <$> Counter (installed_apps user ≫= category_rows) []) in
      (ucp,
       set_cache {| USER_LOCALE := USER_LOCALE (cache w);
                    USER_REGION := USER_REGION (cache w);
                    USER_CATEGORY_PROFILE :=
                      <[external_id user := ucp]> (USER_CATEGORY_PROFILE (cache w));
                    APP_CATEGORY_PROFILE := APP_CATEGORY_PROFILE (cache w) |} w)
  end.

(** The loop [acd[cat] = [] if cat not in acd else acd[cat]+[appID]]. *)
Fixpoint build_acd (rs : list (Z * category)) (acd : gmap category (list Z))
  : gmap category (list Z) :=
  match rs with
  | [] => acd
  | (appID, cat) :: rest =>
      build_acd rest
        (match acd !! cat with
         | None => <[cat := []]> acd
         | Some l => <[cat := l ++ [appID]]> acd
         end)
  end.

(** [FFOSApp.objects.filter(id__in=part).values_list('id', 'categories__name')] *)
Definition app_category_rows (w : world) (part : list Z) : list (Z * category) :=
  filter (λ a, app_pk a ∈ part) (FFOSApp_objects w)
    ≫= (λ a, (λ c, (app_pk a, c)) <$> category_rows a).

Definition CategoryReRanker_get_apps_category_dict (sorted_tlist : list Z) (w : world)
  : gmap category (list Z) * world :=
  let compute :=
    let part :=
      slice_to (int (inject_Z (Z.of_nat (length sorted_tlist)) * PART)) sorted_tlist in
    let acd := build_acd (app_category_rows w part) ∅ in
    (acd,
     set_cache {| USER_LOCALE := USER_LOCALE (cache w);
                  USER_REGION := USER_REGION (cache w);
                  USER_CATEGORY_PROFILE := USER_CATEGORY_PROFILE (cache w);
                  APP_CATEGORY_PROFILE := Some acd |} w) in
  match APP_CATEGORY_PROFILE (cache w) with
  | Some acd => if decide (acd = ∅) then compute else (acd, w)
  | None => compute
  end.

(** [__call__] once the profile [ucp] and the dictionary [acd] are known. *)
Definition CategoryReRanker_body (num_rec : Z) (ucp : list (category * Q))
    (acd : gmap category (list Z)) (app_score : list Z) : result (list Z) :=
  let tes := length app_score in
  let prefs := select_prefs num_rec ucp 0 [] in
  to_add ← pick acd prefs [];
  app_score' ← list_remove_all to_add app_score;
  let i := num_rec - Z.of_nat (length to_add) in
  let out := slice_to i app_score' ++ to_add ++ slice_from i app_score' in
  if decide (length out = tes) then Ok out else Raise AssertionError.

(** [__call__].  [self.num_rec] is first read inside the slot loop, hence
    before the dictionary is fetched unless the profile is empty. *)
Definition CategoryReRanker_call (self : instance) (user : FFOSUser)
    (app_score : list Z) (w : world) : result (list Z) * world :=
  let '(ucp, w1) := CategoryReRanker_get_user_category_profile user w in
  let '(acd, w2) := CategoryReRanker_get_apps_category_dict app_score w1 in
  match getattr self "num_rec" with
  | Ok (PyInt num_rec) => (CategoryReRanker_body num_rec ucp acd app_score, w2)
  | Ok _ => (Raise TypeError, match ucp with [] => w2 | _ => w1 end)
  | Raise e => (Raise e, match ucp with [] => w2 | _ => w1 end)
  end.

(** The items [__call__] picks: [to_add] at the end of the second loop. *)
Definition CategoryReRanker_to_add (self : instance) (user : FFOSUser)
    (app_score : list Z) (w : world) : result (list Z) :=
  let '(ucp, w1) := CategoryReRanker_get_user_category_profile user w in
  let '(acd, w2) := CategoryReRanker_get_apps_category_dict app_score w1 in
  match getattr self "num_rec" with
  | Ok (PyInt num_rec) => pick acd (select_prefs num_rec ucp 0 []) []
  | Ok _ => Raise TypeError
  | Raise e => Raise e
  end.

(** *** RepetitionReRanker *)

Definition RepetitionReRanker_call (user : FFOSUser) (app_score : list Z)
  : result (list Z) :=
  let user_apps := app_pk <$> installed_apps user in
  app_score' ← list_remove_all user_apps app_score;
  Ok (app_score' ++ user_apps).

(** ** controller.py *)

(** The abstract controller and the one that reads the trained model;
    [TestController], which draws random matrices, is left out. *)
Inductive controller_class :=
  | cls_InterfaceController
  | cls_SimpleController.

Record controller := {
  ctl_id : nat;
  ctl_class : controller_class;
  _filters : list instance;
  _rerankers : list instance;
}.

(** [InterfaceController.__init__] *)
Definition new_controller (ident : nat) (k : controller_class) : controller :=
  {| ctl_id := ident; ctl_class := k; _filters := []; _rerankers := [] |}.

(** [f.controller = self] *)
Definition set_controller (self : controller) (f : instance) : instance :=
  {| ob_id := ob_id f; ob_class := ob_class f;
     ob_dict := <["controller" := PyController (ctl_id self)]> (ob_dict f) |}.

Definition registerFilter (self : controller) (filters : list instance) : controller :=
  {| ctl_id := ctl_id self; ctl_class := ctl_class self;
     _filters := _filters self ++ (set_controller self <$> filters);
     _rerankers := _rerankers self |}.

(** [[x for x in xs if x not in items]] *)
Fixpoint keep_not_in (xs items : list instance) : result (list instance) :=
  match xs with
  | [] => Ok []
  | x :: rest =>
      b ← py_in x items;
      rest' ← keep_not_in rest items;
      Ok (if (b : bool) then rest' else x :: rest')
  end.

Definition unregisterFilter (self : controller) (filters : list instance)
  : result controller :=
  l ← keep_not_in (_filters self) filters;
  Ok {| ctl_id := ctl_id self; ctl_class := ctl_class self;
        _filters := l; _rerankers := _rerankers self |}.

Definition registerReranker (self : controller) (rerankers : list instance) : controller :=
  {| ctl_id := ctl_id self; ctl_class := ctl_class self;
     _filters := _filters self;
     _rerankers := _rerankers self ++ (set_controller self <$> rerankers) |}.

Definition unregisterReranker (self : controller) (rerankers : list instance)
  : result controller :=
  l ← keep_not_in (_rerankers self) rerankers;
  Ok {| ctl_id := ctl_id self; ctl_class := ctl_class self;
        _filters := _filters self; _rerankers := l |}.

(** *** The factor matrices *)

(** [TensorModel.objects.filter(dim=d).order_by('-id')[0]]; [None] stands
    for the [IndexError] of the subscript. *)
Definition latest (d : Z) (w : world) : option TensorModel :=
  head (sorted (λ x y, model_id y ?= model_id x)
          (filter (λ t, dim t = d) (TensorModel_objects w))).

Section Controller.

(** [TensorModel.train()], the training operation: whatever it does to
    the tables and the cache. *)
Variable train : world → world.

(** The body shared by [SimpleController.get_user_matrix] ([d = 0]) and
    [SimpleController.get_apps_matrix] ([d = 1]).  [fuel] is the number
    of frames left before Python gives up with "maximum recursion depth
    exceeded".  The methods are wrapped in [@CacheMatrix()], whose module
    is not among the sources; the body is what runs when that cache has
    no entry, which is the case at every recursive call, no call having
    returned yet. *)
Fixpoint get_matrix (d : Z) (fuel : nat) (w : world) : result matrix * world :=
  match fuel with
  | O => (Raise RuntimeError, w)
  | S fuel' =>
      match latest d w with
      | Some t => (Ok (numpy_matrix t), w)
      | None => get_matrix d fuel' (train w)
      end
  end.

Definition SimpleController_get_user_matrix := get_matrix 0.
Definition SimpleController_get_apps_matrix := get_matrix 1.

Definition get_user_matrix (self : controller) (fuel : nat) (w : world)
  : result matrix * world :=
  match ctl_class self with
  | cls_InterfaceController => (Raise TypeError, w)
  | cls_SimpleController => SimpleController_get_user_matrix fuel w
  end.

Definition get_apps_matrix (self : controller) (fuel : nat) (w : world)
  : result matrix * world :=
  match ctl_class self with
  | cls_InterfaceController => (Raise TypeError, w)
  | cls_SimpleController => SimpleController_get_apps_matrix fuel w
  end.

(** *** The scorer *)

Definition ncols (m : matrix) : nat :=
  match m with [] => O | r :: _ => length r end.

Definition column (k : nat) (m : matrix) : list Q :=
  (λ r, nth k r 0%Q) <$> m.

Definition dot (u v : list Q) : Q :=
  foldr Qplus 0%Q (zip_with Qmult u v).

(** [np.squeeze(np.asarray(u_matrix.transpose()[user.pk-1] * a_matrix))] *)
Definition get_app_significance_list (user : FFOSUser) (u_matrix a_matrix : matrix)
  : result ndarray :=
  match py_index (pk user - 1) (ncols u_matrix) with
  | None => Raise IndexError
  | Some k =>
      let row := column k u_matrix in
      if decide (length row = length a_matrix) then
        let scores :=
          (λ a, Fin (dot row (column a a_matrix))) <$> seq 0 (ncols a_matrix) in
        match scores with
        | [x] => Ok (Array0 x)
        | _ => Ok (Array1 scores)
        end
      else Raise ValueError
  end.

(** *** The pipeline *)

(** [_filter(user, result)].  An instance whose [__call__] does not take
    a score array fails in Python at its first use of the data; the model
    reports that as [TypeError]. *)
Definition call_filter (f : instance) (user : FFOSUser) (a : ndarray) (w : world)
  : result ndarray * world :=
  match ob_class f with
  | cls_RepetitionFilter => (RepetitionFilter_call user a, w)
  | cls_LocaleFilter => LocaleFilter_call user a w
  | _ => (Raise TypeError, w)
  end.

Definition call_reranker (r : instance) (user : FFOSUser) (l : list Z) (w : world)
  : result (list Z) * world :=
  match ob_class r with
  | cls_RegionReRanker => RegionReRanker_call user l w
  | cls_CategoryReRanker => CategoryReRanker_call r user l w
  | cls_RepetitionReRanker => (RepetitionReRanker_call user l, w)
  | _ => (Raise TypeError, w)
  end.

Fixpoint run_filters (fs : list instance) (user : FFOSUser) (a : ndarray) (w : world)
  : result ndarray * world :=
  match fs with
  | [] => (Ok a, w)
  | f :: rest =>
      match call_filter f user a w with
      | (Ok a', w') => run_filters rest user a' w'
      | (Raise e, w') => (Raise e, w')
      end
  end.

Fixpoint run_rerankers (rs : list instance) (user : FFOSUser) (l : list Z) (w : world)
  : result (list Z) * world :=
  match rs with
  | [] => (Ok l, w)
  | r :: rest =>
      match call_reranker r user l w with
      | (Ok l', w') => run_rerankers rest user l' w'
      | (Raise e, w') => (Raise e, w')
      end
  end.

(** The sort step:
    [[aid+1 for aid, _ in sorted(enumerate(l), cmp=lambda x, y: cmp(y[1], x[1]))]] *)
Definition by_score_desc (x y : Z * score) : comparison := cmp y.2 x.2.

Definition rank (l : list score) : list Z :=
  (λ p : Z * score, p.1 + 1) <$> sorted by_score_desc (enumerate l).

(** [result.tolist()] followed by the sort step; [enumerate] rejects the
    float a zero-dimensional array turns into. *)
Definition sort_step (a : ndarray) : result (list Z) :=
  match a with
  | Array0 _ => Raise TypeError
  | Array1 xs => Ok (rank xs)
  end.

(** The score vector after the filters: the first half of
    [get_recommendation]. *)
Definition filtered_scores (self : controller) (user : FFOSUser)
    (fuel : nat) (w : world) : result ndarray * world :=
  match get_user_matrix self fuel w with
  | (Raise e, w1) => (Raise e, w1)
  | (Ok u_matrix, w1) =>
      match get_apps_matrix self fuel w1 with
      | (Raise e, w2) => (Raise e, w2)
      | (Ok a_matrix, w2) =>
          match get_app_significance_list user u_matrix a_matrix with
          | Raise e => (Raise e, w2)
          | Ok a => run_filters (_filters self) user a w2
          end
      end
  end.

(** [InterfaceController.get_recommendation].  The decorators
    [@LogRecommendedApps()] and [@CacheUser()] come from modules that are
    not among the sources; this is the decorated body. *)
Definition get_recommendation (self : controller) (user : FFOSUser) (n : Z)
    (fuel : nat) (w : world) : result (list Z) * world :=
  match filtered_scores self user fuel w with
  | (Raise e, w3) => (Raise e, w3)
  | (Ok a, w3) =>
      match sort_step a with
      | Raise e => (Raise e, w3)
      | Ok l =>
          match run_rerankers (_rerankers self) user l w3 with
          | (Raise e, w4) => (Raise e, w4)
          | (Ok l', w4) => (Ok (slice_to n l'), w4)
          end
      end
  end.

End Controller.

(** ** frappe/tools/region/__init__.py *)

Section Region.

(** [Region.get_user_regions] and [Region.get_item_list_by_region] of
    [frappe.tools.region.models], which is not among the sources: the
    region tags of a user, and for a module and a region one 0/1 entry
    per item (1 = available in the region or worldwide). *)
Variable get_user_regions : string → list string.
Variable get_item_list_by_region : Z → string → list Z.

(** [np.sum(vectors, axis=0)] for at least one vector. *)
Definition sum_axis0 (v : list Z) (vs : list (list Z)) : list Z :=
  foldl (zip_with Z.add) v vs.

(** [SimpleRegionFilter.__call__].  The region vectors all have one
    entry per item.  [+=] broadcasts a one-entry penalty and otherwise
    refuses arrays of different lengths with [ValueError]. *)
Definition SimpleRegionFilter_call (module_pk : Z) (user : FFOSUser)
    (recommendation : list score) : result (list score) :=
  let user_regions :=
    get_item_list_by_region module_pk <$> get_user_regions (external_id user) in
  match user_regions with
  | [] => Ok recommendation
  | v :: vs =>
      let penalty := (λ s, (s - 1) * 1000) <$> sum_axis0 v vs in
      match penalty with
      | [p] => Ok ((λ s, score_add s p) <$> recommendation)
      | _ =>
          if decide (length penalty = length recommendation)
          then Ok (zip_with score_add recommendation penalty)
          else Raise ValueError
      end
  end.

End Region.

(** ** controller.py: external ids *)

(** [{app_id: app_eid for app_id, app_eid in
      FFOSApp.objects.filter(pk__in=keys).values_list('pk', 'external_id')}]:
    a later row overwrites an earlier one of the same key. *)
Definition external_id_dict (w : world) (keys : list Z) : gmap Z string :=
  foldl (λ rs a, <[app_pk a := app_external_id a]> rs) ∅
    (filter (λ a, app_pk a ∈ keys) (FFOSApp_objects w)).

(** [[rs[r] for r in keys]]; a missing key raises [KeyError]. *)
Fixpoint lookup_each (rs : gmap Z string) (keys : list Z) : result (list string) :=
  match keys with
  | [] => Ok []
  | r :: rest =>
      match rs !! r with
      | None => Raise KeyError
      | Some e => cons e <$> lookup_each rs rest
      end
  end.

(** [InterfaceController.get_external_id_recommendations] *)
Definition get_external_id_recommendations (train : world → world)
    (self : controller) (user : FFOSUser) (n : Z) (fuel : nat) (w : world)
  : result (list string) * world :=
  match get_recommendation train self user n fuel w with
  | (Raise e, w') => (Raise e, w')
  | (Ok l, w') => (lookup_each (external_id_dict w' l) l, w')
  end.

(** ** What the specification says, for comparison *)

(** The provider of the specification: on absence train, look up once
    more, and fail with [ModelUnavailable] on a second absence. *)
Definition spec_get_matrix (train : world → world) (d : Z) (w : world)
  : result matrix * world :=
  match latest d w with
  | Some t => (Ok (numpy_matrix t), w)
  | None =>
      let w' := train w in
      match latest d w' with
      | Some t => (Ok (numpy_matrix t), w')
      | None => (Raise ModelUnavailable, w')
      end
  end.

(** The slot filling of the specification: for each slot the
    highest-ranked item of the category, not chosen yet, among the first
    33% of the ranking.  [cats] gives the categories of an item. *)
Fixpoint spec_pick (cats : Z → list category) (prefix : list Z)
    (prefs : list category) (chosen : list Z) : list Z :=
  match prefs with
  | [] => chosen
  | cat :: rest =>
      spec_pick cats prefix rest
        (match filter (λ x, cat ∈ cats x ∧ x ∉ chosen) prefix with
         | x :: _ => chosen ++ [x]
         | [] => chosen
         end)
  end.

(** The Category Reranker of the specification: remove the picked items
    and put them back, in slot order, at position [n - (number picked)]. *)
Definition spec_CategoryReRanker (cats : Z → list category) (num_rec : Z)
    (ucp : list (category * Q)) (app_score : list Z) : list Z :=
  let prefix :=
    slice_to (int (inject_Z (Z.of_nat (length app_score)) * PART)) app_score in
  let to_add := spec_pick cats prefix (select_prefs num_rec ucp 0 []) [] in
  let rest := filter (λ x, x ∉ to_add) app_score in
  let i := num_rec - Z.of_nat (length to_add) in
  slice_to i rest ++ to_add ++ slice_from i rest.

(** [ids] come in the same relative order in [l] and in [out]. *)
Definition same_relative_order (ids : list Z) (l out : list Z) : Prop :=
  filter (λ x, x ∈ ids) out = filter (λ x, x ∈ ids) l.

(** [x] belongs before [y] in a stable sort by [c] of entries that came in
    ascending order of [key]. *)
Definition before {A} (c : A → A → comparison) (key : A → Z) (x y : A) : Prop :=
  c x y = Lt ∨ (c x y = Eq ∧ key x < key y).

(** ** Scenarios *)

Definition an_app (k : Z) (cats regs : list string) : FFOSApp :=
  {| app_pk := k; app_external_id := ""; categories := cats;
     supported_locales := ["en"]; regions := regs |}.

Definition a_user (installed : list FFOSApp) : FFOSUser :=
  {| pk := 1; external_id := "u1"; locale := "en"; region := Some "es";
     installed_apps := installed |}.

(** Three apps, a rank-one model whose scores for user 1 are
    [0.5, 0.9, 0.1]. *)
Definition three_apps : world :=
  {| FFOSApp_objects :=
       [an_app 1 [] ["worldwide"]; an_app 2 [] ["worldwide"]; an_app 3 [] ["worldwide"]];
     TensorModel_objects :=
       [ {| model_id := 1; dim := 0; numpy_matrix := [[1%Q]] |};
         {| model_id := 2; dim := 1;
            numpy_matrix := [[(1 # 2)%Q; (9 # 10)%Q; (1 # 10)%Q]] |} ];
     cache := empty_cache |}.

Definition suppressing_controller : controller :=
  registerFilter (new_controller 0 cls_SimpleController) [new 1 cls_RepetitionFilter].

(** No model trained yet, and a training that stores one matrix per run:
    the item matrix on the first run, the user matrix on the second. *)
Definition untrained : world :=
  {| FFOSApp_objects := []; TensorModel_objects := []; cache := empty_cache |}.

Definition train_one_matrix (w : world) : world :=
  let n := Z.of_nat (length (TensorModel_objects w)) in
  {| FFOSApp_objects := FFOSApp_objects w;
     TensorModel_objects :=
       TensorModel_objects w
         ++ [ {| model_id := n + 1; dim := (n + 1) `mod` 2; numpy_matrix := [[1%Q]] |} ];
     cache := cache w |}.

(** A training that stores nothing. *)
Definition train_nothing (w : world) : world := w.

(** Nine apps of the category "games"; apps 1 and 3 are sold in France
    only, the others everywhere. *)
Definition nine_games : world :=
  {| FFOSApp_objects :=
       (λ k, an_app k ["games"]
               (if decide (k = 1 ∨ k = 3) then ["fr"] else ["worldwide"]))
         <$> seqZ 1 9;
     TensorModel_objects := []; cache := empty_cache |}.

Definition games_of_nine (x : Z) : list category :=
  if decide (1 ≤ x ≤ 9) then [Some "games"] else [].

(** The same catalogue after an earlier call has cached a dictionary that
    knows item 9 only. *)
Definition nine_games_cached : world :=
  set_cache
    {| USER_LOCALE := ∅; USER_REGION := ∅; USER_CATEGORY_PROFILE := ∅;
       APP_CATEGORY_PROFILE := Some {[ Some "games" := [9] ]} |}
    nine_games.

(** Apps 1 and 3 are sold in France only, app 2 everywhere. *)
Definition french_apps : world :=
  {| FFOSApp_objects :=
       [an_app 1 [] ["fr"]; an_app 2 [] ["worldwide"]; an_app 3 [] ["fr"]];
     TensorModel_objects := []; cache := empty_cache |}.

(** A user of two regions and three items: the first sold in both
    regions, the second in Spain only, the third in neither. *)
Definition two_regions (external_id : string) : list string := ["es"; "pt"].
Definition iberian_items (module_pk : Z) (region : string) : list Z :=
  if decide (region = "es") then [1; 1; 0] else [1; 0; 0].

(** A user without region. *)
Definition no_region (external_id : string) : list string := [].

(** * Properties *)

(** ** Slices and [list.remove] *)

Lemma slice_to_from {A} (i : Z) (l : list A) : slice_to i l ++ slice_from i l = l.
Proof. unfold slice_to, slice_from. apply take_drop. Qed.

Lemma list_remove_Ok (x : Z) (l l' : list Z) :
  list_remove x l = Ok l' → l ≡ₚ x :: l'.
Proof.
  revert l'. induction l as [|y l IH]; intros l' H; simpl in H; [discriminate|].
  destruct (decide (x = y)) as [->|Hne].
  - by inversion H.
  - destruct (list_remove x l) as [l0|e] eqn:E; simpl in H; [|discriminate].
    inversion H; subst. rewrite (IH l0 eq_refl). apply Permutation_swap.
Qed.

Lemma list_remove_elem_of (x : Z) (l : list Z) :
  x ∈ l → ∃ l', list_remove x l = Ok l'.
Proof.
  induction l as [|y l IH]; intros Hin; [by apply elem_of_nil in Hin|].
  simpl. destruct (decide (x = y)) as [->|Hne]; [eauto|].
  apply elem_of_cons in Hin as [?|Hin]; [done|].
  destruct (IH Hin) as [l' ->]. simpl. eauto.
Qed.

Lemma list_remove_absent (x : Z) (l : list Z) :
  x ∉ l → list_remove x l = Raise ValueError.
Proof.
  induction l as [|y l IH]; intros Hin; [done|]. simpl.
  apply not_elem_of_cons in Hin as [Hne Hin].
  destruct (decide (x = y)); [done|]. by rewrite IH.
Qed.

Lemma list_remove_all_submseteq (xs l : list Z) :
  xs ⊆+ l → ∃ l', list_remove_all xs l = Ok l' ∧ l ≡ₚ xs ++ l'.
Proof.
  revert l. induction xs as [|x xs IH]; intros l Hsub; simpl.
  - eauto.
  - assert (x ∈ l) as Hx by (eapply elem_of_submseteq; [apply list_elem_of_here|done]).
    destruct (list_remove_elem_of x l Hx) as [l1 E]. rewrite E. simpl.
    pose proof (list_remove_Ok _ _ _ E) as HP.
    rewrite HP in Hsub. apply (submseteq_app_inv_l _ _ [x]) in Hsub as Hsub'.
    destruct (IH l1 Hsub') as (l' & -> & HP').
    eexists; split; [done|]. by rewrite HP, HP'.
Qed.

Lemma list_remove_all_Ok (xs l l' : list Z) :
  list_remove_all xs l = Ok l' → l ≡ₚ xs ++ l'.
Proof.
  revert l. induction xs as [|x xs IH]; intros l H; simpl in H.
  - by inversion H.
  - destruct (list_remove x l) as [l1|e] eqn:E; simpl in H; [|discriminate].
    rewrite (list_remove_Ok _ _ _ E). simpl. f_equiv. by apply IH.
Qed.

Lemma list_remove_all_NoDup (xs l : list Z) :
  NoDup xs → (∀ x, x ∈ xs → x ∈ l) →
  ∃ l', list_remove_all xs l = Ok l' ∧ l ≡ₚ xs ++ l'.
Proof. intros ??. by apply list_remove_all_submseteq, NoDup_submseteq. Qed.

Lemma filter_ne_absent (x : Z) (l : list Z) :
  x ∉ l → filter (λ y, y ≠ x) l = l.
Proof.
  induction l as [|y l IH]; intros Hin; [done|].
  apply not_elem_of_cons in Hin as [Hne Hin].
  rewrite filter_cons_True by done. by rewrite IH.
Qed.

(** On a duplicate-free list, [remove] is a filter. *)
Lemma list_remove_filter (x : Z) (l : list Z) :
  NoDup l → x ∈ l → list_remove x l = Ok (filter (λ y, y ≠ x) l).
Proof.
  induction 1 as [|y l Hy ND IH]; intros Hin; [by apply elem_of_nil in Hin|].
  simpl. destruct (decide (x = y)) as [->|Hne].
  - rewrite filter_cons_False by (intros ?; done).
    by rewrite filter_ne_absent.
  - apply elem_of_cons in Hin as [?|Hin]; [done|].
    rewrite filter_cons_True by done. by rewrite IH.
Qed.

Lemma list_remove_all_filter (xs l : list Z) :
  NoDup l → NoDup xs → (∀ x, x ∈ xs → x ∈ l) →
  list_remove_all xs l = Ok (filter (λ y, y ∉ xs) l).
Proof.
  revert l. induction xs as [|x xs IH]; intros l NDl NDxs Hsub; simpl.
  - f_equal. induction l as [|y l IHl]; [done|].
    rewrite filter_cons_True by apply not_elem_of_nil.
    f_equal. apply IHl; [by apply NoDup_cons in NDl as [_ ?]|].
    intros ? Hx. by apply elem_of_nil in Hx.
  - apply NoDup_cons in NDxs as [Hx NDxs].
    rewrite list_remove_filter by (try done; apply Hsub; left). simpl.
    rewrite IH; [|by apply NoDup_filter|done|].
    + f_equal. rewrite list_filter_filter. apply list_filter_iff.
      intros y. rewrite not_elem_of_cons. tauto.
    + intros y Hy. apply list_elem_of_filter. split; [|apply Hsub; by right].
      intros ->. done.
Qed.

Lemma move_to_end_spec (pks app_score to_add : list Z) :
  move_to_end pks app_score to_add
  = (l ← list_remove_all pks app_score; Ok (l ++ to_add ++ pks)).
Proof.
  revert app_score to_add. induction pks as [|p pks IH]; intros l acc; simpl.
  - by rewrite app_nil_r.
  - destruct (list_remove p l) as [l1|e]; simpl; [|done].
    rewrite IH. destruct (list_remove_all pks l1); simpl; [|done].
    by rewrite <-(assoc (++) acc).
Qed.

(** ** The stable sort *)

Section Sorting.
Context {A : Type} (c : A → A → comparison) (key : A → Z).
Hypothesis c_antisym : ∀ x y, c y x = CompOpp (c x y).
Hypothesis c_trans : ∀ x y z, c x y ≠ Gt → c y z ≠ Gt → c x z ≠ Gt.

Lemma insort_Permutation (x : A) (l : list A) : insort c x l ≡ₚ x :: l.
Proof.
  induction l as [|y l IH]; simpl; [done|].
  destruct (c x y); try done. rewrite IH. apply Permutation_swap.
Qed.

Lemma sorted_Permutation (l : list A) : sorted c l ≡ₚ l.
Proof.
  induction l as [|x l IH]; simpl; [done|].
  by rewrite insort_Permutation, IH.
Qed.

Lemma insort_before (x : A) (l : list A) :
  StronglySorted (before c key) l → Forall (λ y, key x < key y) l →
  StronglySorted (before c key) (insort c x l).
Proof.
  induction 1 as [|y l Hl IH Hy]; intros Hkey; simpl.
  - repeat constructor.
  - apply Forall_cons in Hkey as [Hxy Hkey].
    destruct (c x y) eqn:E.
    + constructor; [by constructor|]. constructor; [right; done|].
      rewrite Forall_forall in Hy, Hkey |- *. intros z Hz.
      pose proof (Hy z Hz) as Hyz. pose proof (Hkey z Hz) as Hxz.
      assert (c x z ≠ Gt) as Hne.
      { apply (c_trans x y z); [congruence|]. destruct Hyz as [?|[? _]]; congruence. }
      destruct (c x z) eqn:E'; [by right|by left|done].
    + constructor; [by constructor|]. constructor; [left; done|].
      rewrite Forall_forall in Hy, Hkey |- *. intros z Hz.
      pose proof (Hy z Hz) as Hyz. pose proof (Hkey z Hz) as Hxz.
      assert (c x z ≠ Gt) as Hne.
      { apply (c_trans x y z); [congruence|]. destruct Hyz as [?|[? _]]; congruence. }
      destruct (c x z) eqn:E'; [by right|by left|done].
    + constructor; [by apply IH|].
      rewrite insort_Permutation. constructor; [|done].
      left. rewrite c_antisym, E. done.
Qed.

Lemma StronglySorted_lookup (R : A → A → Prop) (l : list A) (i j : nat) (x y : A) :
  StronglySorted R l → (i < j)%nat → l !! i = Some x → l !! j = Some y → R x y.
Proof.
  intros HS. revert i j. induction HS as [|z l HS IH Hz]; intros i j Hij Hi Hj.
  - done.
  - destruct j as [|j]; [lia|]. simpl in Hj. destruct i as [|i]; simpl in Hi.
    + inversion Hi; subst. rewrite Forall_forall in Hz. apply Hz.
      by eapply list_elem_of_lookup_2.
    + apply (IH i j); [lia|done..].
Qed.
End Sorting.

Lemma cmp_antisym (x y : score) : cmp y x = CompOpp (cmp x y).
Proof.
  destruct x as [|a], y as [|b]; simpl; try done.
  symmetry. apply Qcompare_antisym.
Qed.

Lemma cmp_trans (x y z : score) : cmp x y ≠ Gt → cmp y z ≠ Gt → cmp x z ≠ Gt.
Proof.
  destruct x as [|a], y as [|b], z as [|d]; simpl; try done.
  rewrite <-!Qle_alt. apply Qle_trans.
Qed.

Lemma enumerate_from_fst {A} (k : Z) (l : list A) :
  (enumerate_from k l).*1 = seqZ k (Z.of_nat (length l)).
Proof.
  revert k. induction l as [|x l IH]; intros k; [done|].
  simpl length. rewrite Nat2Z.inj_succ, seqZ_cons by lia. simpl.
  rewrite IH. do 2 f_equal; lia.
Qed.

Lemma enumerate_from_lookup {A} (k : Z) (l : list A) (p : Z * A) :
  p ∈ enumerate_from k l → k ≤ p.1 ∧ l !! Z.to_nat (p.1 - k) = Some p.2.
Proof.
  revert k. induction l as [|x l IH]; intros k Hin; simpl in Hin.
  - by apply elem_of_nil in Hin.
  - apply elem_of_cons in Hin as [->|Hin]; simpl.
    + split; [lia|]. by rewrite Z.sub_diag.
    + destruct (IH _ Hin) as [Hk Hl]. split; [lia|].
      replace (Z.to_nat (p.1 - k)) with (S (Z.to_nat (p.1 - (k + 1)))) by lia.
      done.
Qed.

Lemma sorted_enumerate_from (k : Z) (l : list score) :
  StronglySorted (before by_score_desc fst) (sorted by_score_desc (enumerate_from k l)).
Proof.
  revert k. induction l as [|x l IH]; intros k; simpl; [constructor|].
  apply insort_before.
  - intros p q. apply cmp_antisym.
  - intros p q r H1 H2. by apply (cmp_trans _ q.2).
  - apply IH.
  - rewrite Forall_forall. intros p Hp. simpl.
    rewrite sorted_Permutation in Hp.
    apply enumerate_from_lookup in Hp. lia.
Qed.

Lemma rank_Permutation (l : list score) : rank l ≡ₚ seqZ 1 (Z.of_nat (length l)).
Proof.
  unfold rank. rewrite sorted_Permutation. unfold enumerate.
  rewrite <-(fmap_add_seqZ 1 0), <-enumerate_from_fst, <-list_fmap_compose.
  induction (enumerate_from 0 l) as [|p ps IH]; [done|].
  simpl. rewrite IH. f_equiv; [lia|done].
Qed.

(** C3. The sort step lists every key 1..len once; a key listed before
    another has a score at least as high, and of two keys with equal scores
    the lower one is listed first. *)
Theorem rank_descending_stable (l : list score) :
  rank l ≡ₚ seqZ 1 (Z.of_nat (length l)) ∧
  ∀ (i j : nat) (a b : Z),
    (i < j)%nat → rank l !! i = Some a → rank l !! j = Some b →
    ∃ sa sb,
      l !! Z.to_nat (a - 1) = Some sa ∧ l !! Z.to_nat (b - 1) = Some sb ∧
      1 ≤ a ∧ 1 ≤ b ∧
      cmp sa sb ≠ Lt ∧ (cmp sa sb = Eq → a < b).
Proof.
  split; [apply rank_Permutation|].
  intros i j a b Hij Hi Hj. unfold rank in Hi, Hj.
  apply list_lookup_fmap_Some in Hi as (p & -> & Hp).
  apply list_lookup_fmap_Some in Hj as (q & -> & Hq).
  pose proof (StronglySorted_lookup _ _ i j p q
                (sorted_enumerate_from 0 l) Hij Hp Hq) as Hpq.
  assert (∀ r, r ∈ sorted by_score_desc (enumerate l) →
               0 ≤ r.1 ∧ l !! Z.to_nat (r.1 + 1 - 1) = Some r.2) as Hin.
  { intros r Hr. rewrite sorted_Permutation in Hr.
    apply enumerate_from_lookup in Hr as [? Hr].
    split; [done|]. rewrite <-Hr. f_equal. lia. }
  destruct (Hin p) as [Hp0 Hps]; [by eapply list_elem_of_lookup_2|].
  destruct (Hin q) as [Hq0 Hqs]; [by eapply list_elem_of_lookup_2|].
  unfold before, by_score_desc in Hpq.
  exists p.2, q.2. repeat split; try done; try lia.
  - destruct Hpq as [H|[H _]]; simpl in H; rewrite cmp_antisym in H;
      destruct (cmp p.2 q.2); done.
  - intros E. destruct Hpq as [H|[_ H]]; simpl in H.
    + rewrite cmp_antisym, E in H. done.
    + lia.
Qed.

Lemma rank_descending_stable_witness :
  rank [Fin (1#2); Fin (3#4); Fin (2#4)] = [2; 1; 3] ∧
  ∃ sa sb,
    [Fin (1#2); Fin (3#4); Fin (2#4)] !! Z.to_nat (1 - 1) = Some sa ∧
    [Fin (1#2); Fin (3#4); Fin (2#4)] !! Z.to_nat (3 - 1) = Some sb ∧
    1 ≤ 1 ∧ 1 ≤ 3 ∧ cmp sa sb ≠ Lt ∧ (cmp sa sb = Eq → 1 < 3).
Proof.
  split; [reflexivity|].
  apply (proj2 (rank_descending_stable [Fin (1#2); Fin (3#4); Fin (2#4)]) 1%nat 2%nat 1 3);
    [lia | reflexivity | reflexivity].
Defined.

(** ** The re-rankers *)

Lemma RegionReRanker_call_fst (user : FFOSUser) (app_score : list Z) (w : world) :
  (RegionReRanker_call user app_score w).1
  = move_to_end (app_pk <$> (RegionReRanker_get_user_pref user w).1) app_score [].
Proof.
  unfold RegionReRanker_call. by destruct (RegionReRanker_get_user_pref user w).
Qed.

Lemma take_first_new_NoDup (aids to_add : list Z) :
  NoDup to_add → NoDup (take_first_new aids to_add).
Proof.
  intros ND. induction aids as [|aid aids IH]; simpl; [done|].
  destruct (decide (aid ∈ to_add)); [done|].
  apply NoDup_app. split_and!; [done| |apply NoDup_singleton].
  intros x Hx ->%list_elem_of_singleton. done.
Qed.

Lemma pick_NoDup (acd : gmap category (list Z)) (prefs : list category)
    (acc to_add : list Z) :
  NoDup acc → pick acd prefs acc = Ok to_add → NoDup to_add.
Proof.
  revert acc. induction prefs as [|cat prefs IH]; intros acc ND H; simpl in H.
  - by inversion H; subst.
  - destruct (acd !! cat) as [aids|]; [|discriminate].
    eapply IH; [|done]. by apply take_first_new_NoDup.
Qed.

Lemma reinsert_Permutation (i : Z) (to_add l l' : list Z) :
  list_remove_all to_add l = Ok l' →
  slice_to i l' ++ to_add ++ slice_from i l' ≡ₚ l.
Proof.
  intros H. trans (to_add ++ slice_to i l' ++ slice_from i l').
  - rewrite !(assoc (++)). f_equiv. apply Permutation_app_comm.
  - rewrite slice_to_from. symmetry. by apply list_remove_all_Ok.
Qed.

Lemma CategoryReRanker_body_Permutation (num_rec : Z) (ucp : list (category * Q))
    (acd : gmap category (list Z)) (app_score to_add : list Z) :
  pick acd (select_prefs num_rec ucp 0 []) [] = Ok to_add →
  (∀ x, x ∈ to_add → x ∈ app_score) →
  ∃ out, CategoryReRanker_body num_rec ucp acd app_score = Ok out ∧ out ≡ₚ app_score.
Proof.
  intros Hpick Hin. unfold CategoryReRanker_body. rewrite Hpick. simpl.
  destruct (list_remove_all_NoDup to_add app_score) as (l' & E & _);
    [by eapply pick_NoDup; [apply NoDup_nil_2|]|done|].
  rewrite E. simpl.
  pose proof (reinsert_Permutation (num_rec - Z.of_nat (length to_add)) _ _ _ E) as HP.
  rewrite decide_True by (by rewrite HP).
  eauto.
Qed.

Lemma CategoryReRanker_body_assertion (num_rec : Z) (ucp : list (category * Q))
    (acd : gmap category (list Z)) (app_score : list Z) :
  CategoryReRanker_body num_rec ucp acd app_score ≠ Raise AssertionError.
Proof.
  unfold CategoryReRanker_body.
  destruct (pick acd (select_prefs num_rec ucp 0 []) []) as [to_add|e] eqn:Hpick; simpl.
  - destruct (list_remove_all to_add app_score) as [l'|e] eqn:E; simpl.
    + pose proof (reinsert_Permutation (num_rec - Z.of_nat (length to_add)) _ _ _ E) as HP.
      by rewrite decide_True by (by rewrite HP).
    + intros [= ->]. clear Hpick. revert app_score E.
      induction to_add as [|x xs IH]; intros l E; simpl in E; [done|].
      destruct (list_remove x l) as [l1|e] eqn:E1; simpl in E; [by eapply IH|].
      clear IH. inversion E; subst. clear E.
      induction l as [|y l IH]; simpl in E1; [done|].
      destruct (decide (x = y)); [done|].
      destruct (list_remove x l); simpl in E1; [done|]. by apply IH.
  - intros [= ->]. revert Hpick. generalize (@nil Z).
    induction (select_prefs num_rec ucp 0 []) as [|c cs IH]; intros acc H; simpl in H; [done|].
    destruct (acd !! c); [by eapply IH|done].
Qed.

Lemma CategoryReRanker_call_body (self : instance) (user : FFOSUser)
    (app_score to_add : list Z) (w : world) :
  CategoryReRanker_to_add self user app_score w = Ok to_add →
  ∃ num_rec ucp acd,
    pick acd (select_prefs num_rec ucp 0 []) [] = Ok to_add ∧
    (CategoryReRanker_call self user app_score w).1
    = CategoryReRanker_body num_rec ucp acd app_score.
Proof.
  unfold CategoryReRanker_to_add, CategoryReRanker_call.
  destruct (CategoryReRanker_get_user_category_profile user w) as [ucp w1].
  destruct (CategoryReRanker_get_apps_category_dict app_score w1) as [acd w2].
  destruct (getattr self "num_rec") as [[n| |]|]; try done.
  intros H. by exists n, ucp, acd.
Qed.

Lemma CategoryReRanker_call_assertion (self : instance) (user : FFOSUser)
    (app_score : list Z) (w : world) :
  (CategoryReRanker_call self user app_score w).1 ≠ Raise AssertionError.
Proof.
  unfold CategoryReRanker_call.
  destruct (CategoryReRanker_get_user_category_profile user w) as [ucp w1].
  destruct (CategoryReRanker_get_apps_category_dict app_score w1) as [acd w2].
  unfold getattr. destruct (ob_dict self !! "num_rec") as [[n| |]|]; simpl; try done.
  apply CategoryReRanker_body_assertion.
Qed.

Lemma CategoryReRanker_call_Permutation (self : instance) (user : FFOSUser)
    (app_score to_add : list Z) (w : world) :
  CategoryReRanker_to_add self user app_score w = Ok to_add →
  (∀ x, x ∈ to_add → x ∈ app_score) →
  ∃ out, (CategoryReRanker_call self user app_score w).1 = Ok out ∧ out ≡ₚ app_score.
Proof.
  intros H Hin. destruct (CategoryReRanker_call_body _ _ _ _ _ H) as (n & ucp & acd & Hp & ->).
  by eapply CategoryReRanker_body_Permutation.
Qed.

(** C8. When the items the Category Reranker picks all occur in the ranked
    list, the call returns a list as long as its input; and the length
    assertion fails on no input at all. *)
Theorem CategoryReRanker_length (self : instance) (user : FFOSUser)
    (app_score to_add : list Z) (w : world) :
  (CategoryReRanker_call self user app_score w).1 ≠ Raise AssertionError ∧
  (CategoryReRanker_to_add self user app_score w = Ok to_add →
   (∀ x, x ∈ to_add → x ∈ app_score) →
   ∃ out, (CategoryReRanker_call self user app_score w).1 = Ok out ∧
          length out = length app_score).
Proof.
  split; [apply CategoryReRanker_call_assertion|].
  intros H Hin.
  destruct (CategoryReRanker_call_Permutation _ _ _ _ _ H Hin) as (out & -> & HP).
  exists out. split; [done|]. by rewrite HP.
Qed.

Lemma CategoryReRanker_length_witness :
  CategoryReRanker_to_add (new_CategoryReRanker 1 4)
    (a_user [an_app 20 ["games"] []]) (seqZ 1 9) nine_games = Ok [2] ∧
  ∃ out, (CategoryReRanker_call (new_CategoryReRanker 1 4)
            (a_user [an_app 20 ["games"] []]) (seqZ 1 9) nine_games).1 = Ok out ∧
         length out = length (seqZ 1 9).
Proof.
  split; [reflexivity|].
  apply (proj2 (CategoryReRanker_length (new_CategoryReRanker 1 4)
                  (a_user [an_app 20 ["games"] []]) (seqZ 1 9) [2] nine_games)).
  - reflexivity.
  - intros x Hx. apply list_elem_of_singleton in Hx. subst x. vm_compute.
    apply list_elem_of_further, list_elem_of_here.
Defined.

(** C5 (amended). On a duplicate-free ranking that contains the
    region-unavailable ids, the list-form Region Reranker returns the
    available ids in their original relative order, followed by the
    unavailable ids in the order in which the listing of unavailable apps
    yields them. *)
Theorem RegionReRanker_listing_order (user : FFOSUser) (app_score : list Z)
    (w : world) (unavailable : list Z) :
  unavailable = app_pk <$> (RegionReRanker_get_user_pref user w).1 →
  NoDup app_score → NoDup unavailable →
  (∀ x, x ∈ unavailable → x ∈ app_score) →
  (RegionReRanker_call user app_score w).1
  = Ok (filter (λ x, x ∉ unavailable) app_score ++ unavailable).
Proof.
  intros -> NDl NDu Hin.
  rewrite RegionReRanker_call_fst, move_to_end_spec.
  by rewrite list_remove_all_filter.
Qed.

Lemma RegionReRanker_listing_order_witness :
  (RegionReRanker_call (a_user []) [3; 1; 2] french_apps).1
  = Ok (filter (λ x, x ∉ [1; 3]) [3; 1; 2] ++ [1; 3]).
Proof.
  apply (RegionReRanker_listing_order (a_user []) [3; 1; 2] french_apps [1; 3]).
  - reflexivity.
  - compute_done.
  - compute_done.
  - intros x Hx.
    apply elem_of_cons in Hx as [->|Hx]; [compute_done|].
    apply list_elem_of_singleton in Hx. subst x. compute_done.
Defined.

(** C5 as stated fails: apps 1 and 3 are unavailable and ranked 3 before 1,
    yet the output lists 1 before 3. *)
Lemma RegionReRanker_order_counterexample :
  app_pk <$> (RegionReRanker_get_user_pref (a_user []) french_apps).1 = [1; 3] ∧
  ∃ out, (RegionReRanker_call (a_user []) [3; 1; 2] french_apps).1 = Ok out ∧
         ¬ same_relative_order [1; 3] [3; 1; 2] out.
Proof.
  split; [reflexivity|]. exists [2; 1; 3]. split; [reflexivity|].
  unfold same_relative_order. vm_compute. discriminate.
Qed.

(** C9. Each re-ranker returns a permutation of the ranked list it is
    given, provided the ids it moves occur in that list: the region-unavailable
    ids and the installed ids (both listings without repetition), and the items
    the Category Reranker picks. *)
Theorem rerankers_permute (self : instance) (user : FFOSUser)
    (app_score : list Z) (w : world) :
  (∀ unavailable,
     unavailable = app_pk <$> (RegionReRanker_get_user_pref user w).1 →
     NoDup unavailable → (∀ x, x ∈ unavailable → x ∈ app_score) →
     ∃ out, (RegionReRanker_call user app_score w).1 = Ok out ∧ out ≡ₚ app_score) ∧
  (∀ to_add,
     CategoryReRanker_to_add self user app_score w = Ok to_add →
     (∀ x, x ∈ to_add → x ∈ app_score) →
     ∃ out, (CategoryReRanker_call self user app_score w).1 = Ok out ∧
            out ≡ₚ app_score) ∧
  (∀ user_apps,
     user_apps = app_pk <$> installed_apps user →
     NoDup user_apps → (∀ x, x ∈ user_apps → x ∈ app_score) →
     ∃ out, RepetitionReRanker_call user app_score = Ok out ∧ out ≡ₚ app_score).
Proof.
  split_and!.
  - intros ? -> ND Hin. rewrite RegionReRanker_call_fst, move_to_end_spec.
    destruct (list_remove_all_NoDup _ _ ND Hin) as (l' & -> & HP). simpl.
    eexists; split; [done|]. rewrite HP. apply Permutation_app_comm.
  - intros to_add. apply CategoryReRanker_call_Permutation.
  - intros ? -> ND Hin. unfold RepetitionReRanker_call.
    destruct (list_remove_all_NoDup _ _ ND Hin) as (l' & -> & HP). simpl.
    eexists; split; [done|]. rewrite HP. apply Permutation_app_comm.
Qed.

Lemma rerankers_permute_witness :
  (∃ out, (RegionReRanker_call (a_user [an_app 2 ["games"] []]) (seqZ 1 9) nine_games).1
          = Ok out ∧ out ≡ₚ seqZ 1 9) ∧
  (∃ out, (CategoryReRanker_call (new_CategoryReRanker 1 4)
             (a_user [an_app 2 ["games"] []]) (seqZ 1 9) nine_games).1 = Ok out ∧
          out ≡ₚ seqZ 1 9) ∧
  (∃ out, RepetitionReRanker_call (a_user [an_app 2 ["games"] []]) (seqZ 1 9) = Ok out ∧
          out ≡ₚ seqZ 1 9).
Proof.
  destruct (rerankers_permute (new_CategoryReRanker 1 4) (a_user [an_app 2 ["games"] []])
              (seqZ 1 9) nine_games) as (Hregion & Hcategory & Hrepetition).
  split_and!.
  - apply (Hregion [1; 3]); [reflexivity|compute_done|].
    intros x Hx.
    apply elem_of_cons in Hx as [->|Hx]; [compute_done|].
    apply list_elem_of_singleton in Hx. subst x. compute_done.
  - apply (Hcategory [2]); [reflexivity|].
    intros x Hx. apply list_elem_of_singleton in Hx. subst x. compute_done.
  - apply (Hrepetition [2]); [reflexivity|compute_done|].
    intros x Hx. apply list_elem_of_singleton in Hx. subst x. compute_done.
Defined.

(** C4 (code defect). With nine games ranked 1..9, four slots and a user
    whose only category is "games", the dictionary built from the top 33%
    (items 1 and 2) has lost item 1, so the reranker picks item 2 alone and
    puts it at position 3; the specification picks 1 then 2 and puts them
    at position 2. *)
Theorem CategoryReRanker_drops_first_of_category :
  (CategoryReRanker_get_apps_category_dict (seqZ 1 9) nine_games).1 !! Some "games"
    = Some [2] ∧
  CategoryReRanker_to_add (new_CategoryReRanker 1 4)
    (a_user [an_app 20 ["games"] []]) (seqZ 1 9) nine_games = Ok [2] ∧
  (CategoryReRanker_call (new_CategoryReRanker 1 4)
     (a_user [an_app 20 ["games"] []]) (seqZ 1 9) nine_games).1
    = Ok [1; 3; 4; 2; 5; 6; 7; 8; 9] ∧
  spec_CategoryReRanker games_of_nine 4 [(Some "games", 1%Q)] (seqZ 1 9)
    = [3; 4; 1; 2; 5; 6; 7; 8; 9].
Proof. split_and!; reflexivity. Qed.

(** The dictionary is cached under one key for all users and rankings: once
    cached it is used as it is, whatever the ranking at hand. *)
Lemma CategoryReRanker_cached_dictionary :
  (CategoryReRanker_get_apps_category_dict (seqZ 1 9) nine_games_cached).1
    = {[ Some "games" := [9] ]} ∧
  (CategoryReRanker_call (new_CategoryReRanker 1 4)
     (a_user [an_app 20 ["games"] []]) (seqZ 1 9) nine_games_cached).1
    = Ok [1; 2; 3; 9; 4; 5; 6; 7; 8].
Proof. split; reflexivity. Qed.

(** ** The controller *)

(** C1. Three items, item 2 installed, raw scores [0.5, 0.9, 0.1]: the
    filtered vector is [0.5, -inf, 0.1], the sorted keys are [1, 3, 2], and
    [get_recommendation(user, n=10)] returns [1, 3, 2]. *)
Theorem three_apps_scenario (train : world → world) (fuel : nat) :
  get_app_significance_list (a_user [an_app 2 [] ["worldwide"]])
    [[1%Q]] [[(1 # 2)%Q; (9 # 10)%Q; (1 # 10)%Q]]
    = Ok (Array1 [Fin (1 # 2); Fin (9 # 10); Fin (1 # 10)]) ∧
  filtered_scores train suppressing_controller (a_user [an_app 2 [] ["worldwide"]])
    (S fuel) three_apps
    = (Ok (Array1 [Fin (1 # 2); NegInf; Fin (1 # 10)]), three_apps) ∧
  sort_step (Array1 [Fin (1 # 2); NegInf; Fin (1 # 10)]) = Ok [1; 3; 2] ∧
  get_recommendation train suppressing_controller (a_user [an_app 2 [] ["worldwide"]])
    10 (S fuel) three_apps
    = (Ok [1; 3; 2], three_apps).
Proof. split_and!; reflexivity. Qed.

Lemma get_matrix_present (train : world → world) (d : Z) (k fuel : nat)
    (w : world) (t : TensorModel) :
  (∀ i, (i < k)%nat → latest d (Nat.iter i train w) = None) →
  latest d (Nat.iter k train w) = Some t →
  (k < fuel)%nat →
  get_matrix train d fuel w = (Ok (numpy_matrix t), Nat.iter k train w).
Proof.
  revert fuel w. induction k as [|k IH]; intros fuel w Habsent Hpresent Hfuel;
    (destruct fuel as [|fuel]; [lia|]); simpl in *.
  - by rewrite Hpresent.
  - pose proof (Habsent 0%nat ltac:(lia)) as H0. simpl in H0. rewrite H0.
    rewrite (IH fuel (train w)); [|..|lia].
    + by rewrite <-Nat.iter_succ_r.
    + intros i Hi. rewrite <-Nat.iter_succ_r. apply Habsent. lia.
    + by rewrite <-Nat.iter_succ_r.
Qed.

Lemma get_matrix_absent (train : world → world) (d : Z) (fuel : nat) (w : world) :
  (∀ i, (i < fuel)%nat → latest d (Nat.iter i train w) = None) →
  get_matrix train d fuel w = (Raise RuntimeError, Nat.iter fuel train w).
Proof.
  revert w. induction fuel as [|fuel IH]; intros w Habsent; [done|].
  pose proof (Habsent 0%nat ltac:(lia)) as H0. simpl in H0.
  simpl get_matrix. rewrite H0.
  rewrite IH; [by rewrite <-Nat.iter_succ_r|].
  intros i Hi. rewrite <-Nat.iter_succ_r. apply Habsent. lia.
Qed.

Lemma get_matrix_exn (train : world → world) (d : Z) (fuel : nat) (w : world) (e : exn) :
  (get_matrix train d fuel w).1 = Raise e → e = RuntimeError.
Proof.
  revert w. induction fuel as [|fuel IH]; intros w; simpl.
  - by intros [= <-].
  - destruct (latest d w); [done|apply IH].
Qed.

(** C2 (amended). When the matrix of kind [d] (0: user factors, 1: item
    factors) is absent, the provider trains and looks up again, and goes on
    doing so while the lookup stays absent: if the matrix first appears after
    [k] trainings, the call returns it having trained exactly [k] times; if
    it never appears, the call ends in Python's recursion error after one
    training per frame.  No path raises [ModelUnavailable]. *)
Theorem get_matrix_trains_until_present (train : world → world) (d : Z)
    (fuel : nat) (w : world) :
  (∀ (k : nat) (t : TensorModel),
     (∀ i, (i < k)%nat → latest d (Nat.iter i train w) = None) →
     latest d (Nat.iter k train w) = Some t →
     (k < fuel)%nat →
     get_matrix train d fuel w = (Ok (numpy_matrix t), Nat.iter k train w)) ∧
  ((∀ i, (i < fuel)%nat → latest d (Nat.iter i train w) = None) →
   get_matrix train d fuel w = (Raise RuntimeError, Nat.iter fuel train w)) ∧
  (get_matrix train d fuel w).1 ≠ Raise ModelUnavailable.
Proof.
  split_and!.
  - intros k t. apply get_matrix_present.
  - apply get_matrix_absent.
  - intros H. by apply get_matrix_exn in H.
Qed.

Lemma get_matrix_trains_until_present_witness :
  SimpleController_get_user_matrix train_one_matrix 1000 untrained
  = (Ok [[1%Q]], Nat.iter 2 train_one_matrix untrained).
Proof.
  apply (proj1 (get_matrix_trains_until_present train_one_matrix 0 1000 untrained)
           2%nat {| model_id := 2; dim := 0; numpy_matrix := [[1%Q]] |}).
  - intros i Hi. destruct i as [|[|i]]; [reflexivity|reflexivity|lia].
  - reflexivity.
  - lia.
Defined.

(** C2 as stated fails: the user matrix is absent, and absent again after
    one training; the call does not fail, it trains a second time and
    returns the matrix, where the specification raises [ModelUnavailable].
    With a training that stores nothing, the call ends in the recursion
    error. *)
Lemma second_absence_counterexample :
  latest 0 untrained = None ∧
  latest 0 (train_one_matrix untrained) = None ∧
  SimpleController_get_user_matrix train_one_matrix 1000 untrained
  = (Ok [[1%Q]], train_one_matrix (train_one_matrix untrained)) ∧
  spec_get_matrix train_one_matrix 0 untrained
  = (Raise ModelUnavailable, train_one_matrix untrained) ∧
  SimpleController_get_user_matrix train_one_matrix 1000 untrained
  ≠ spec_get_matrix train_one_matrix 0 untrained ∧
  SimpleController_get_user_matrix train_nothing 1000 untrained
  = (Raise RuntimeError, untrained).
Proof. split_and!; try (vm_compute; reflexivity). vm_compute. discriminate. Qed.

(** ** Equality of filters *)

Lemma Filter_eq_AttributeError (self other : instance) :
  ob_dict other !! "_Filter__class" = None → Filter_eq self other = Raise AttributeError.
Proof. intros H. unfold Filter_eq, getattr. by rewrite H. Qed.

Lemma py_in_AttributeError (x y : instance) (rest : list instance) :
  ob_id x ≠ ob_id y →
  ob_dict x !! "_Filter__class" = None →
  ob_dict y !! "_Filter__class" = None →
  py_in x (y :: rest) = Raise AttributeError.
Proof.
  intros Hid Hx Hy. simpl. rewrite decide_False by done.
  unfold py_eq. destruct (proper_subclass _ _);
    by rewrite Filter_eq_AttributeError.
Qed.

Lemma constructed_no_class_attribute (ident : nat) (k : klass) (n : Z) (c : controller) :
  ob_dict (new ident k) !! "_Filter__class" = None ∧
  ob_dict (new_CategoryReRanker ident n) !! "_Filter__class" = None ∧
  ob_dict (set_controller c (new ident k)) !! "_Filter__class" = None ∧
  ob_dict (set_controller c (new_CategoryReRanker ident n)) !! "_Filter__class" = None.
Proof. split_and!; reflexivity. Qed.

(** C7 (code defect). [Filter.__eq__] reads the attribute
    [_Filter__class], which no instance has: comparing two filters of the
    same class raises [AttributeError], and so does [unregisterFilter] when
    given a distinct instance equivalent to the registered one; only the very
    instance that was registered is removed, by identity. *)
Theorem unregisterFilter_equivalent_instance :
  Filter_eq (new 2 cls_RepetitionFilter) (new 1 cls_RepetitionFilter)
    = Raise AttributeError ∧
  unregisterFilter suppressing_controller [new 2 cls_RepetitionFilter]
    = Raise AttributeError ∧
  unregisterFilter suppressing_controller (_filters suppressing_controller)
    = Ok (new_controller 0 cls_SimpleController).
Proof. split_and!; reflexivity. Qed.

(** ** The score-phase region filter *)

Lemma score_add_0 (s : score) : score_add s 0 = s.
Proof.
  destruct s as [|[n d]]; simpl; [done|].
  unfold Qplus. simpl. f_equal. f_equal; lia.
Qed.

Section RegionFacts.
Variable get_user_regions : string → list string.
Variable get_item_list_by_region : Z → string → list Z.

Lemma SimpleRegionFilter_call_zip (module_pk : Z) (user : FFOSUser)
    (recommendation : list score) (r : string) (rs : list string) :
  get_user_regions (external_id user) = r :: rs →
  let sums := sum_axis0 (get_item_list_by_region module_pk r)
                (get_item_list_by_region module_pk <$> rs) in
  length sums = length recommendation →
  SimpleRegionFilter_call get_user_regions get_item_list_by_region
    module_pk user recommendation
  = Ok (zip_with score_add recommendation ((λ s, (s - 1) * 1000) <$> sums)).
Proof.
  intros Hr sums Hlen. unfold SimpleRegionFilter_call.
  rewrite Hr, fmap_cons. cbv zeta. fold sums.
  assert (length ((λ s, (s - 1) * 1000) <$> sums) = length recommendation) as Hlen'
    by (by rewrite length_fmap).
  destruct ((λ s, (s - 1) * 1000) <$> sums) as [|p [|p' ps]] eqn:E.
  - by rewrite decide_True.
  - by destruct recommendation as [|x [|x' xs]].
  - by rewrite decide_True.
Qed.

(** What the filter does to one item, for a user with at least one region:
    the score moves by [(s - 1) * 1000] where [s] counts the user's regions
    the item is available in; so it drops by 1000 for [s = 0] and stays
    for [s = 1]. *)
Lemma SimpleRegionFilter_item (module_pk : Z) (user : FFOSUser)
    (recommendation : list score) (r : string) (rs : list string)
    (i : nat) (x : score) (s : Z) :
  get_user_regions (external_id user) = r :: rs →
  let sums := sum_axis0 (get_item_list_by_region module_pk r)
                (get_item_list_by_region module_pk <$> rs) in
  length sums = length recommendation →
  recommendation !! i = Some x → sums !! i = Some s →
  ∃ out,
    SimpleRegionFilter_call get_user_regions get_item_list_by_region
      module_pk user recommendation = Ok out ∧
    out !! i = Some (score_add x ((s - 1) * 1000)) ∧
    (s = 0 → out !! i = Some (score_add x (-1000))) ∧
    (s = 1 → out !! i = Some x).
Proof.
  intros Hr sums Hlen Hx Hs.
  rewrite (SimpleRegionFilter_call_zip _ _ _ _ _ Hr Hlen). fold sums.
  eexists; split; [done|].
  assert (zip_with score_add recommendation ((λ s, (s - 1) * 1000) <$> sums) !! i
          = Some (score_add x ((s - 1) * 1000))) as Hout.
  { rewrite lookup_zip_with, Hx. simpl. by rewrite list_lookup_fmap, Hs. }
  split_and!; [done|..].
  - intros ->. by rewrite Hout.
  - intros ->. by rewrite Hout, score_add_0.
Qed.
End RegionFacts.

(** C6 (code defect). For a user of two regions the item sold in both
    gains 1000, the item sold in one keeps its score, and the item sold in
    neither loses 1000. *)
Theorem SimpleRegionFilter_two_regions :
  SimpleRegionFilter_call two_regions iberian_items 1 (a_user [])
    [Fin (1 # 2); Fin (1 # 2); Fin (1 # 2)]
  = Ok [Fin (2001 # 2); Fin (1 # 2); Fin (-1999 # 2)].
Proof. reflexivity. Qed.

(** C10. For a user without region tag the filter returns the score vector
    it was given. *)
Theorem SimpleRegionFilter_no_region (get_user_regions : string → list string)
    (get_item_list_by_region : Z → string → list Z) (module_pk : Z)
    (user : FFOSUser) (recommendation : list score) :
  get_user_regions (external_id user) = [] →
  SimpleRegionFilter_call get_user_regions get_item_list_by_region
    module_pk user recommendation
  = Ok recommendation.
Proof. intros H. unfold SimpleRegionFilter_call. by rewrite H. Qed.

Lemma SimpleRegionFilter_no_region_witness :
  SimpleRegionFilter_call no_region iberian_items 1 (a_user [])
    [Fin (1 # 2); NegInf; Fin (1 # 10)]
  = Ok [Fin (1 # 2); NegInf; Fin (1 # 10)].
Proof.
  apply (SimpleRegionFilter_no_region no_region iberian_items 1 (a_user [])
           [Fin (1 # 2); NegInf; Fin (1 # 10)]).
  reflexivity.
Defined.

(** * Further properties of the code *)

(** ** Suppression filters *)

Lemma py_index_Some (i : Z) (len k : nat) :
  py_index i len = Some k →
  (k < len)%nat ∧ (- Z.of_nat len ≤ i < Z.of_nat len) ∧
  (0 ≤ i → k = Z.to_nat i).
Proof.
  unfold py_index. repeat case_bool_decide; intros [= <-]; lia.
Qed.

Lemma py_index_in_range (i : Z) (len : nat) :
  0 ≤ i < Z.of_nat len → py_index i len = Some (Z.to_nat i).
Proof. intros H. unfold py_index. by rewrite bool_decide_eq_true_2. Qed.


Lemma suppress_Array0 (pks : list Z) (x : score) (a : ndarray) :
  suppress pks (Array0 x) = Ok a → pks = [] ∧ a = Array0 x.
Proof. destruct pks; simpl; [by intros [= <-]|done]. Qed.

Lemma suppress_length (pks : list Z) (xs : list score) (a : ndarray) :
  suppress pks (Array1 xs) = Ok a →
  ∃ out, a = Array1 out ∧ length out = length xs.
Proof.
  revert xs. induction pks as [|p pks IH]; intros xs H; simpl in H.
  - inversion H. eauto.
  - destruct (py_index (p - 1) (length xs)) as [k|]; simpl in H; [|done].
    apply IH in H as (out & -> & Hlen). exists out. split; [done|].
    by rewrite Hlen, length_insert.
Qed.

Lemma suppress_exn (pks : list Z) (a : ndarray) (e : exn) :
  suppress pks a = Raise e → e = IndexError.
Proof.
  revert a. induction pks as [|p pks IH]; intros a H; simpl in H; [done|].
  destruct a as [x|xs]; simpl in H; [by inversion H|].
  destruct (py_index (p - 1) (length xs)); simpl in H; [by eapply IH|by inversion H].
Qed.

Lemma suppress_pointwise (pks : list Z) (xs : list score) :
  (∀ p, p ∈ pks → 1 ≤ p ≤ Z.of_nat (length xs)) →
  ∃ out,
    suppress pks (Array1 xs) = Ok (Array1 out) ∧
    length out = length xs ∧
    ∀ (i : nat) (x : score), xs !! i = Some x →
      out !! i = Some (if decide (Z.of_nat i + 1 ∈ pks) then NegInf else x).
Proof.
  revert xs. induction pks as [|p pks IH]; intros xs Hpks; simpl.
  - exists xs. split_and!; [done..|]. intros i x Hx. done.
  - assert (1 ≤ p ≤ Z.of_nat (length xs)) as Hp by (apply Hpks; left).
    rewrite py_index_in_range by lia. simpl.
    destruct (IH (<[Z.to_nat (p - 1) := NegInf]> xs)) as (out & -> & Hlen & Hout).
    { intros q Hq. rewrite length_insert. apply Hpks. by right. }
    exists out. split_and!; [done|by rewrite Hlen, length_insert|].
    intros i x Hx. destruct (decide (i = Z.to_nat (p - 1))) as [->|Hne].
    + rewrite (Hout _ NegInf) by (apply list_lookup_insert_eq; lia).
      rewrite (decide_True (P := _ ∈ p :: pks)) by (apply elem_of_cons; left; lia).
      by destruct (decide _).
    + rewrite (Hout _ x) by (by rewrite list_lookup_insert_ne).
      destruct (decide (Z.of_nat i + 1 ∈ pks)) as [Hin|Hin].
      * rewrite decide_True; [done|by right].
      * rewrite decide_False; [done|]. apply not_elem_of_cons. split; [lia|done].
Qed.

(** X1. On a score vector that has a position for every installed app,
    [RepetitionFilter] returns a vector of the same length in which the
    installed positions hold -inf and every other score is untouched. *)
Theorem RepetitionFilter_suppresses (user : FFOSUser) (xs : list score) :
  (∀ a, a ∈ installed_apps user → 1 ≤ app_pk a ≤ Z.of_nat (length xs)) →
  ∃ out,
    RepetitionFilter_call user (Array1 xs) = Ok (Array1 out) ∧
    length out = length xs ∧
    ∀ (i : nat) (x : score), xs !! i = Some x →
      out !! i = Some (if decide (Z.of_nat i + 1 ∈ app_pk <$> installed_apps user)
                       then NegInf else x).
Proof.
  intros Hrange. unfold RepetitionFilter_call. apply suppress_pointwise.
  intros p (a & -> & Ha)%list_elem_of_fmap. by apply Hrange.
Qed.

Lemma RepetitionFilter_suppresses_witness :
  ∃ out,
    RepetitionFilter_call (a_user [an_app 2 [] []])
      (Array1 [Fin (1 # 2); Fin (9 # 10); Fin (1 # 10)]) = Ok (Array1 out) ∧
    length out = 3%nat ∧
    ∀ (i : nat) (x : score),
      [Fin (1 # 2); Fin (9 # 10); Fin (1 # 10)] !! i = Some x →
      out !! i = Some (if decide (Z.of_nat i + 1 ∈ [2]) then NegInf else x).
Proof.
  apply (RepetitionFilter_suppresses (a_user [an_app 2 [] []])
           [Fin (1 # 2); Fin (9 # 10); Fin (1 # 10)]).
  intros a Ha. apply list_elem_of_singleton in Ha. subst a. simpl. lia.
Defined.

(** X2. An installed app whose key has no position in the score vector
    makes [RepetitionFilter] fail with [IndexError]; the filter raises no
    other exception, and it fails on a zero-dimensional array as soon as the
    user has an installed app. *)
Theorem RepetitionFilter_IndexError (user : FFOSUser) (a : ndarray) :
  (∀ e, RepetitionFilter_call user a = Raise e → e = IndexError) ∧
  (∀ xs b, a = Array1 xs → b ∈ installed_apps user →
     ¬ (- Z.of_nat (length xs) ≤ app_pk b - 1 < Z.of_nat (length xs)) →
     RepetitionFilter_call user a = Raise IndexError) ∧
  (∀ x, a = Array0 x → installed_apps user ≠ [] →
     RepetitionFilter_call user a = Raise IndexError).
Proof.
  unfold RepetitionFilter_call. split_and!.
  - intros e. apply suppress_exn.
  - intros xs b -> Hb Hout.
    destruct (suppress (app_pk <$> installed_apps user) (Array1 xs)) as [r|e] eqn:E;
      [|by rewrite (suppress_exn _ _ _ E)].
    exfalso. apply (list_elem_of_fmap_2 app_pk) in Hb.
    revert xs E Hout Hb. generalize (app_pk b) as p.
    induction (app_pk <$> installed_apps user) as [|q pks IH]; intros p xs E Hout Hp.
    + by apply elem_of_nil in Hp.
    + simpl in E.
      destruct (py_index (q - 1) (length xs)) as [k|] eqn:Ek; simpl in E; [|done].
      apply elem_of_cons in Hp as [->|Hp].
      * apply py_index_Some in Ek. lia.
      * eapply (IH p); [done| |done]. by rewrite length_insert.
  - intros x -> Hne. destruct (installed_apps user); done.
Qed.

Lemma RepetitionFilter_IndexError_witness :
  RepetitionFilter_call (a_user [an_app 4 [] []])
    (Array1 [Fin (1 # 2); Fin (9 # 10); Fin (1 # 10)]) = Raise IndexError.
Proof.
  apply (proj1 (proj2 (RepetitionFilter_IndexError (a_user [an_app 4 [] []])
           (Array1 [Fin (1 # 2); Fin (9 # 10); Fin (1 # 10)])))
           [Fin (1 # 2); Fin (9 # 10); Fin (1 # 10)] (an_app 4 [] [])).
  - reflexivity.
  - apply list_elem_of_here.
  - simpl. lia.
Defined.

Lemma suppress_keeps_NegInf (pks : list Z) (xs out : list score) (k : nat) :
  suppress pks (Array1 xs) = Ok (Array1 out) →
  xs !! k = Some NegInf → out !! k = Some NegInf.
Proof.
  revert xs. induction pks as [|p pks IH]; intros xs H Hk; simpl in H.
  - by inversion H; subst.
  - destruct (py_index (p - 1) (length xs)) as [j|] eqn:Ej; simpl in H; [|done].
    apply (IH _ H). destruct (decide (j = k)) as [->|Hne].
    + apply list_lookup_insert_eq. by eapply lookup_lt_Some.
    + by rewrite list_lookup_insert_ne.
Qed.

Lemma suppress_hits (pks : list Z) (xs out : list score) (p : Z) :
  suppress pks (Array1 xs) = Ok (Array1 out) → p ∈ pks →
  ∃ k, py_index (p - 1) (length out) = Some k ∧ out !! k = Some NegInf.
Proof.
  revert xs. induction pks as [|q pks IH]; intros xs H Hp; simpl in H.
  - by apply elem_of_nil in Hp.
  - destruct (py_index (q - 1) (length xs)) as [j|] eqn:Ej; simpl in H; [|done].
    apply elem_of_cons in Hp as [->|Hp]; [|by eapply IH].
    destruct (suppress_length _ _ _ H) as (out' & [= <-] & Hlen).
    rewrite length_insert in Hlen. exists j. rewrite Hlen. split; [done|].
    apply (suppress_keeps_NegInf _ _ _ _ H).
    apply list_lookup_insert_eq. by apply py_index_Some in Ej as [? _].
Qed.

Lemma suppress_fixed (pks : list Z) (out : list score) :
  (∀ p, p ∈ pks →
     ∃ k, py_index (p - 1) (length out) = Some k ∧ out !! k = Some NegInf) →
  suppress pks (Array1 out) = Ok (Array1 out).
Proof.
  induction pks as [|p pks IH]; intros H; simpl; [done|].
  destruct (H p) as (k & -> & Hk); [left|]. simpl.
  rewrite list_insert_id by done. apply IH. intros q Hq. apply H. by right.
Qed.

Lemma suppress_idempotent (pks : list Z) (a a' : ndarray) :
  suppress pks a = Ok a' → suppress pks a' = Ok a'.
Proof.
  destruct a as [x|xs]; intros H.
  - by apply suppress_Array0 in H as [-> ->].
  - destruct (suppress_length _ _ _ H) as (out & -> & _).
    apply suppress_fixed. intros p Hp. by eapply suppress_hits.
Qed.

(** X3. [RepetitionFilter] is idempotent: a vector it has returned is
    returned unchanged when filtered again for the same user. *)
Theorem RepetitionFilter_idempotent (user : FFOSUser) (a a' : ndarray) :
  RepetitionFilter_call user a = Ok a' → RepetitionFilter_call user a' = Ok a'.
Proof. apply suppress_idempotent. Qed.

Lemma RepetitionFilter_idempotent_witness :
  RepetitionFilter_call (a_user [an_app 2 [] []])
    (Array1 [Fin (1 # 2); NegInf; Fin (1 # 10)])
  = Ok (Array1 [Fin (1 # 2); NegInf; Fin (1 # 10)]).
Proof.
  apply (RepetitionFilter_idempotent (a_user [an_app 2 [] []])
           (Array1 [Fin (1 # 2); Fin (9 # 10); Fin (1 # 10)])).
  reflexivity.
Defined.

(** ** The cached listings *)

Lemma set_cache_set_cache (c c' : cache_t) (w : world) :
  set_cache c (set_cache c' w) = set_cache c w.
Proof. done. Qed.

Lemma LocaleFilter_get_user_pref_again (user : FFOSUser) (w : world) :
  LocaleFilter_get_user_pref user (LocaleFilter_get_user_pref user w).2
  = LocaleFilter_get_user_pref user w.
Proof.
  unfold LocaleFilter_get_user_pref at 2 3.
  destruct (USER_LOCALE (cache w) !! external_id user) as [[|a apps]|] eqn:E; simpl.
  - unfold LocaleFilter_get_user_pref, apps_without_locale. simpl.
    rewrite lookup_insert_eq.
    destruct (filter _ (FFOSApp_objects w)) as [|b bs] eqn:F; [|done].
    by rewrite insert_insert_eq.
  - unfold LocaleFilter_get_user_pref. by rewrite E.
  - unfold LocaleFilter_get_user_pref, apps_without_locale. simpl.
    rewrite lookup_insert_eq.
    destruct (filter _ (FFOSApp_objects w)) as [|b bs] eqn:F; [|done].
    by rewrite insert_insert_eq.
Qed.

(** X4. [LocaleFilter] is stable: a second [get_user_pref] returns the
    same listing and leaves the cache as the first call left it, whatever the
    cache held before; and a vector the filter has returned is returned
    unchanged, with the world unchanged, when filtered again. *)
Theorem LocaleFilter_stable (user : FFOSUser) (w : world) :
  LocaleFilter_get_user_pref user (LocaleFilter_get_user_pref user w).2
  = LocaleFilter_get_user_pref user w ∧
  ∀ a a',
    (LocaleFilter_call user a w).1 = Ok a' →
    LocaleFilter_call user a' (LocaleFilter_call user a w).2
    = (Ok a', (LocaleFilter_call user a w).2).
Proof.
  split; [apply LocaleFilter_get_user_pref_again|].
  intros a a'. unfold LocaleFilter_call.
  pose proof (LocaleFilter_get_user_pref_again user w) as Hagain.
  destruct (LocaleFilter_get_user_pref user w) as [apps w'] eqn:E. simpl in *.
  intros H. rewrite Hagain. f_equal. by eapply suppress_idempotent.
Qed.

Lemma LocaleFilter_stable_witness :
  LocaleFilter_call (a_user [])
    (Array1 [Fin (1 # 2); Fin (9 # 10); Fin (1 # 10)])
    (LocaleFilter_call (a_user [])
       (Array1 [Fin (1 # 2); Fin (9 # 10); Fin (1 # 10)]) three_apps).2
  = (Ok (Array1 [Fin (1 # 2); Fin (9 # 10); Fin (1 # 10)]),
     (LocaleFilter_call (a_user [])
        (Array1 [Fin (1 # 2); Fin (9 # 10); Fin (1 # 10)]) three_apps).2).
Proof.
  apply (proj2 (LocaleFilter_stable (a_user []) three_apps)
           (Array1 [Fin (1 # 2); Fin (9 # 10); Fin (1 # 10)])).
  reflexivity.
Defined.

(** X5. [RegionReRanker.get_user_pref] is stable in the same way, and once
    a non-empty listing is cached it is served whatever the app table
    holds. *)
Theorem RegionReRanker_get_user_pref_stable (user : FFOSUser) (w : world) :
  RegionReRanker_get_user_pref user (RegionReRanker_get_user_pref user w).2
  = RegionReRanker_get_user_pref user w ∧
  ∀ apps' tensors',
    (RegionReRanker_get_user_pref user w).1 ≠ [] →
    (RegionReRanker_get_user_pref user
       {| FFOSApp_objects := apps'; TensorModel_objects := tensors';
          cache := cache (RegionReRanker_get_user_pref user w).2 |}).1
    = (RegionReRanker_get_user_pref user w).1.
Proof.
  split.
  - unfold RegionReRanker_get_user_pref at 2 3.
    destruct (USER_REGION (cache w) !! external_id user) as [[|a apps]|] eqn:E; simpl.
    + unfold RegionReRanker_get_user_pref, apps_outside_region. simpl.
      rewrite lookup_insert_eq.
      destruct (filter _ (FFOSApp_objects w)) as [|b bs] eqn:F; [|done].
      by rewrite insert_insert_eq.
    + unfold RegionReRanker_get_user_pref. by rewrite E.
    + unfold RegionReRanker_get_user_pref, apps_outside_region. simpl.
      rewrite lookup_insert_eq.
      destruct (filter _ (FFOSApp_objects w)) as [|b bs] eqn:F; [|done].
      by rewrite insert_insert_eq.
  - intros apps' tensors'. unfold RegionReRanker_get_user_pref at 1 3 4.
    destruct (USER_REGION (cache w) !! external_id user) as [[|a apps]|] eqn:E; simpl.
    + intros Hne. unfold RegionReRanker_get_user_pref. simpl.
      rewrite lookup_insert_eq.
      by destruct (apps_outside_region w user).
    + intros _. unfold RegionReRanker_get_user_pref. simpl. by rewrite E.
    + intros Hne. unfold RegionReRanker_get_user_pref. simpl.
      rewrite lookup_insert_eq.
      by destruct (apps_outside_region w user).
Qed.

Lemma RegionReRanker_get_user_pref_stable_witness :
  (RegionReRanker_get_user_pref (a_user [])
     {| FFOSApp_objects := []; TensorModel_objects := [];
        cache := cache (RegionReRanker_get_user_pref (a_user []) french_apps).2 |}).1
  = (RegionReRanker_get_user_pref (a_user []) french_apps).1.
Proof.
  apply (proj2 (RegionReRanker_get_user_pref_stable (a_user []) french_apps) [] []).
  vm_compute. discriminate.
Defined.





(** ** More on the re-rankers *)

Lemma list_remove_exn (x : Z) (l : list Z) (e : exn) :
  list_remove x l = Raise e → e = ValueError.
Proof.
  induction l as [|y l IH]; simpl; [by intros [= <-]|].
  destruct (decide (x = y)); [done|].
  destruct (list_remove x l); simpl; [done|]. intros [= <-]. by apply IH.
Qed.

Lemma list_remove_all_exn (xs l : list Z) (e : exn) :
  list_remove_all xs l = Raise e → e = ValueError.
Proof.
  revert l. induction xs as [|x xs IH]; intros l; simpl; [done|].
  destruct (list_remove x l) as [l1|e1] eqn:E; simpl.
  - apply IH.
  - intros [= <-]. by eapply list_remove_exn.
Qed.

Lemma list_remove_all_absent (xs l : list Z) (x : Z) :
  x ∈ xs → x ∉ l → list_remove_all xs l = Raise ValueError.
Proof.
  intros Hx Hl.
  destruct (list_remove_all xs l) as [l'|e] eqn:E;
    [|by rewrite (list_remove_all_exn _ _ _ E)].
  exfalso. apply Hl. rewrite (list_remove_all_Ok _ _ _ E).
  apply elem_of_app. by left.
Qed.

(** X8. On a duplicate-free ranking that contains the installed ids (a
    listing without repetition), [RepetitionReRanker] returns the other ids in
    their original order followed by the installed ids in listing order: the
    installed apps occupy the tail of the list. *)
Theorem RepetitionReRanker_tail (user : FFOSUser) (app_score : list Z) :
  NoDup app_score → NoDup (app_pk <$> installed_apps user) →
  (∀ x, x ∈ app_pk <$> installed_apps user → x ∈ app_score) →
  RepetitionReRanker_call user app_score
  = Ok (filter (λ x, x ∉ app_pk <$> installed_apps user) app_score
        ++ (app_pk <$> installed_apps user)).
Proof.
  intros NDl NDu Hin. unfold RepetitionReRanker_call.
  by rewrite list_remove_all_filter.
Qed.

Lemma RepetitionReRanker_tail_witness :
  RepetitionReRanker_call (a_user [an_app 3 [] []; an_app 1 [] []]) [1; 3; 2; 4]
  = Ok (filter (λ x, x ∉ app_pk <$> [an_app 3 [] []; an_app 1 [] []]) [1; 3; 2; 4]
        ++ (app_pk <$> [an_app 3 [] []; an_app 1 [] []])).
Proof.
  apply (RepetitionReRanker_tail (a_user [an_app 3 [] []; an_app 1 [] []]) [1; 3; 2; 4]).
  - compute_done.
  - compute_done.
  - intros x Hx.
    apply elem_of_cons in Hx as [->|Hx]; [compute_done|].
    apply list_elem_of_singleton in Hx. subst x. compute_done.
Defined.

(** X9. The two re-rankers that move listed ids fail with [ValueError], and
    with nothing else, when a listed id is missing from the ranked list: an
    installed id for [RepetitionReRanker], a region-unavailable id for
    [RegionReRanker]. *)
Theorem rerankers_ValueError (user : FFOSUser) (app_score : list Z) (w : world) (x : Z) :
  x ∉ app_score →
  (x ∈ app_pk <$> installed_apps user →
   RepetitionReRanker_call user app_score = Raise ValueError) ∧
  (x ∈ app_pk <$> (RegionReRanker_get_user_pref user w).1 →
   (RegionReRanker_call user app_score w).1 = Raise ValueError) ∧
  (∀ e, RepetitionReRanker_call user app_score = Raise e → e = ValueError) ∧
  (∀ e, (RegionReRanker_call user app_score w).1 = Raise e → e = ValueError).
Proof.
  intros Hx. split_and!.
  - intros Hin. unfold RepetitionReRanker_call.
    by rewrite (list_remove_all_absent _ _ x).
  - intros Hin. rewrite RegionReRanker_call_fst, move_to_end_spec.
    by rewrite (list_remove_all_absent _ _ x).
  - intros e. unfold RepetitionReRanker_call.
    destruct (list_remove_all _ app_score) eqn:E; simpl; [done|].
    intros [= <-]. by eapply list_remove_all_exn.
  - intros e. rewrite RegionReRanker_call_fst, move_to_end_spec.
    destruct (list_remove_all _ app_score) eqn:E; simpl; [done|].
    intros [= <-]. by eapply list_remove_all_exn.
Qed.

Lemma rerankers_ValueError_witness :
  RepetitionReRanker_call (a_user [an_app 7 [] []]) [1; 3; 2] = Raise ValueError.
Proof.
  apply (proj1 (rerankers_ValueError (a_user [an_app 7 [] []]) [1; 3; 2] french_apps 7
                  ltac:(compute_done))).
  compute_done.
Defined.






(** ** Inside the Category Reranker *)

Lemma build_acd_lookup (rs : list (Z * category)) (acd : gmap category (list Z))
    (cat : category) :
  build_acd rs acd !! cat
  = match acd !! cat with
    | Some l => Some (l ++ (filter (λ r, r.2 = cat) rs).*1)
    | None =>
        match filter (λ r, r.2 = cat) rs with
        | [] => None
        | _ :: rest => Some (rest.*1)
        end
    end.
Proof.
  revert acd. induction rs as [|[appID c] rs IH]; intros acd; simpl.
  - destruct (acd !! cat); [by rewrite app_nil_r|done].
  - rewrite IH. destruct (decide (c = cat)) as [->|Hne].
    + rewrite filter_cons_True by done.
      destruct (acd !! cat) as [l|]; rewrite lookup_insert_eq; simpl; [|done].
      by rewrite <-(assoc (++)).
    + rewrite filter_cons_False by done.
      destruct (acd !! c); by rewrite lookup_insert_ne.
Qed.

(** X11. With no dictionary cached, [get_apps_category_dict] maps each
    category to the apps of that category among the first 33% of the ranking,
    in the order of the database rows, without the first of them; a category
    with no app there has no entry, and a category with one app has an empty
    entry. *)
Theorem get_apps_category_dict_fresh (sorted_tlist : list Z) (w : world)
    (cat : category) :
  APP_CATEGORY_PROFILE (cache w) = None →
  (CategoryReRanker_get_apps_category_dict sorted_tlist w).1 !! cat
  = match filter (λ r, r.2 = cat)
            (app_category_rows w
               (slice_to (int (inject_Z (Z.of_nat (length sorted_tlist)) * PART))
                  sorted_tlist)) with
    | [] => None
    | _ :: rest => Some (rest.*1)
    end.
Proof.
  intros Hmiss. unfold CategoryReRanker_get_apps_category_dict. rewrite Hmiss.
  simpl. by rewrite build_acd_lookup, lookup_empty.
Qed.

Lemma get_apps_category_dict_fresh_witness :
  (CategoryReRanker_get_apps_category_dict (seqZ 1 9) nine_games).1 !! Some "games"
  = match filter (λ r, r.2 = Some "games")
            (app_category_rows nine_games
               (slice_to (int (inject_Z (Z.of_nat (length (seqZ 1 9))) * PART))
                  (seqZ 1 9))) with
    | [] => None
    | _ :: rest => Some (rest.*1)
    end.
Proof.
  apply (get_apps_category_dict_fresh (seqZ 1 9) nine_games (Some "games")).
  reflexivity.
Defined.

Lemma take_first_new_cases (aids to_add : list Z) :
  take_first_new aids to_add = to_add ∨
  ∃ aid, aid ∈ aids ∧ (aid ∉ to_add) ∧ take_first_new aids to_add = to_add ++ [aid].
Proof.
  induction aids as [|aid aids IH]; simpl; [by left|].
  destruct (decide (aid ∈ to_add)).
  - destruct IH as [?|(x & ? & ? & ?)]; [by left|].
    right. exists x. split_and!; [by right|done..].
  - right. exists aid. split_and!; [by left|done..].
Qed.

Lemma pick_exn (acd : gmap category (list Z)) (prefs : list category)
    (acc : list Z) (e : exn) :
  pick acd prefs acc = Raise e → e = KeyError.
Proof.
  revert acc. induction prefs as [|cat prefs IH]; intros acc; simpl; [done|].
  destruct (acd !! cat); [apply IH|by intros [= <-]].
Qed.

Lemma pick_Ok_iff (acd : gmap category (list Z)) (prefs : list category) (acc : list Z) :
  (∃ to_add, pick acd prefs acc = Ok to_add) ↔ ∀ cat, cat ∈ prefs → is_Some (acd !! cat).
Proof.
  revert acc. induction prefs as [|cat prefs IH]; intros acc; simpl.
  - split; [|eauto]. intros _ c Hc. by apply elem_of_nil in Hc.
  - destruct (acd !! cat) as [aids|] eqn:E.
    + rewrite IH. split.
      * intros H c [->|Hc]%elem_of_cons; [by rewrite E|by apply H].
      * intros H c Hc. apply H. by right.
    + split; [by intros [? ?]|].
      intros H. destruct (H cat) as [? ?]; [by left|congruence].
Qed.

Lemma pick_from (acd : gmap category (list Z)) (prefs : list category)
    (acc to_add : list Z) :
  pick acd prefs acc = Ok to_add →
  (length to_add ≤ length acc + length prefs)%nat ∧
  ∀ x, x ∈ to_add →
    x ∈ acc ∨ ∃ cat l, cat ∈ prefs ∧ acd !! cat = Some l ∧ x ∈ l.
Proof.
  revert acc. induction prefs as [|cat prefs IH]; intros acc H; simpl in H.
  - inversion H; subst. split; [lia|]. by left.
  - destruct (acd !! cat) as [aids|] eqn:E; [|done].
    apply IH in H as [Hlen Hfrom].
    destruct (take_first_new_cases aids acc) as [Heq|(aid & Haid & _ & Heq)];
      rewrite Heq in Hlen, Hfrom.
    + split; [simpl; lia|]. intros x Hx.
      destruct (Hfrom x Hx) as [?|(c & l & ? & ? & ?)]; [by left|].
      right. exists c, l. split_and!; [by right|done..].
    + rewrite length_app in Hlen. split; [simpl in *; lia|]. intros x Hx.
      destruct (Hfrom x Hx) as [Hacc|(c & l & ? & ? & ?)].
      * apply elem_of_app in Hacc as [?|Hnew]; [by left|].
        apply list_elem_of_singleton in Hnew. subst x.
        right. exists cat, aids. split_and!; [by left|done..].
      * right. exists c, l. split_and!; [by right|done..].
Qed.

(** X12. The slot-filling loop fails exactly when a slot names a category
    the dictionary has no entry for, and then with [KeyError]; when it
    succeeds it has picked no item twice, at most one item per slot, and each
    picked item from the dictionary entry of one of the slots' categories. *)
Theorem pick_behaviour (acd : gmap category (list Z)) (prefs : list category) :
  (pick acd prefs [] = Raise KeyError ↔ ∃ cat, cat ∈ prefs ∧ acd !! cat = None) ∧
  (∀ e, pick acd prefs [] = Raise e → e = KeyError) ∧
  (∀ to_add, pick acd prefs [] = Ok to_add →
     NoDup to_add ∧ (length to_add ≤ length prefs)%nat ∧
     ∀ x, x ∈ to_add → ∃ cat l, cat ∈ prefs ∧ acd !! cat = Some l ∧ x ∈ l).
Proof.
  split_and!.
  - split.
    + intros H. destruct (decide (Forall (λ cat, is_Some (acd !! cat)) prefs)) as [HF|HF].
      * rewrite Forall_forall in HF. apply (pick_Ok_iff acd prefs []) in HF as [? HF].
        congruence.
      * apply not_Forall_Exists in HF; [|apply _].
        apply Exists_exists in HF as (cat & Hcat & Hnone).
        exists cat. split; [done|]. by apply eq_None_not_Some.
    + intros (cat & Hcat & Hnone).
      destruct (pick acd prefs []) as [to_add|e] eqn:E.
      * assert (is_Some (acd !! cat)) as [? ?]; [|congruence].
        by apply (proj1 (pick_Ok_iff acd prefs []) (ex_intro _ _ E)).
      * by rewrite (pick_exn _ _ _ _ E).
  - intros e. apply pick_exn.
  - intros to_add H. split_and!.
    + by eapply pick_NoDup; [apply NoDup_nil_2|].
    + by apply pick_from in H as [? _].
    + intros x Hx. apply pick_from in H as [_ H].
      destruct (H x Hx) as [Hnil|?]; [by apply elem_of_nil in Hnil|done].
Qed.

Lemma pick_behaviour_witness :
  NoDup [2; 5] ∧ (length [2; 5] ≤ length [Some "a"; Some "b"; Some "a"])%nat ∧
  ∀ x, x ∈ [2; 5] →
    ∃ cat l, cat ∈ [Some "a"; Some "b"; Some "a"] ∧
      ({[ Some "a" := [2]; Some "b" := [2; 5] ]} : gmap category (list Z)) !! cat = Some l ∧
      x ∈ l.
Proof.
  apply (proj2 (proj2 (pick_behaviour {[ Some "a" := [2]; Some "b" := [2; 5] ]}
                         [Some "a"; Some "b"; Some "a"]))).
  reflexivity.
Defined.






(** X14. A user with no installed app and no cached profile has an empty
    category profile, and the Category Reranker returns the ranked list it was
    given, unchanged. *)
Theorem CategoryReRanker_empty_profile (self : instance) (user : FFOSUser)
    (app_score : list Z) (w : world) (n : Z) :
  installed_apps user = [] →
  USER_CATEGORY_PROFILE (cache w) !! external_id user = None →
  getattr self "num_rec" = Ok (PyInt n) →
  (CategoryReRanker_get_user_category_profile user w).1 = [] ∧
  (CategoryReRanker_call self user app_score w).1 = Ok app_score.
Proof.
  intros Hinst Hmiss Hn. unfold CategoryReRanker_call.
  unfold CategoryReRanker_get_user_category_profile. rewrite Hmiss, Hinst. simpl.
  split; [done|].
  destruct (CategoryReRanker_get_apps_category_dict _ _) as [acd w2].
  rewrite Hn. unfold CategoryReRanker_body. simpl.
  rewrite slice_to_from. by rewrite decide_True.
Qed.

Lemma CategoryReRanker_empty_profile_witness :
  (CategoryReRanker_call (new_CategoryReRanker 1 4) (a_user []) (seqZ 1 9) nine_games).1
  = Ok (seqZ 1 9).
Proof.
  apply (proj2 (CategoryReRanker_empty_profile (new_CategoryReRanker 1 4) (a_user [])
                  (seqZ 1 9) nine_games 4 eq_refl eq_refl eq_refl)).
Defined.

Lemma app_category_rows_ids (w : world) (part : list Z) (r : Z * category) :
  r ∈ app_category_rows w part → r.1 ∈ part.
Proof.
  unfold app_category_rows. intros (a & Hr & Ha)%list_elem_of_bind.
  apply list_elem_of_filter in Ha as [Ha _].
  apply list_elem_of_fmap in Hr as (c & -> & _). done.
Qed.

Lemma profile_keeps_dictionary (user : FFOSUser) (w : world) :
  APP_CATEGORY_PROFILE (cache (CategoryReRanker_get_user_category_profile user w).2)
  = APP_CATEGORY_PROFILE (cache w) ∧
  FFOSApp_objects (CategoryReRanker_get_user_category_profile user w).2
  = FFOSApp_objects w.
Proof.
  unfold CategoryReRanker_get_user_category_profile.
  by destruct (USER_CATEGORY_PROFILE (cache w) !! external_id user) as [[|? ?]|].
Qed.

(** X15. With no dictionary cached, every item the Category Reranker picks
    comes from the first 33% of the ranked list it is given, so the removals
    cannot fail: the call either returns a permutation of its input or raises
    [KeyError] because a profile category has no app in that prefix. *)
Theorem CategoryReRanker_fresh_dictionary (self : instance) (user : FFOSUser)
    (app_score : list Z) (w : world) (n : Z) :
  APP_CATEGORY_PROFILE (cache w) = None →
  getattr self "num_rec" = Ok (PyInt n) →
  (∀ to_add, CategoryReRanker_to_add self user app_score w = Ok to_add →
     ∀ x, x ∈ to_add →
       x ∈ slice_to (int (inject_Z (Z.of_nat (length app_score)) * PART)) app_score) ∧
  ((∃ out, (CategoryReRanker_call self user app_score w).1 = Ok out ∧ out ≡ₚ app_score) ∨
   (CategoryReRanker_call self user app_score w).1 = Raise KeyError).
Proof.
  intros Hmiss Hn.
  assert (∀ to_add, CategoryReRanker_to_add self user app_score w = Ok to_add →
     ∀ x, x ∈ to_add →
       x ∈ slice_to (int (inject_Z (Z.of_nat (length app_score)) * PART)) app_score)
    as Hprefix.
  { intros to_add. unfold CategoryReRanker_to_add.
    destruct (profile_keeps_dictionary user w) as [Hd Ht].
    destruct (CategoryReRanker_get_user_category_profile user w) as [ucp w1].
    simpl in Hd, Ht.
    unfold CategoryReRanker_get_apps_category_dict. rewrite Hd, Hmiss, Hn. simpl.
    intros Hpick x Hx. apply pick_from in Hpick as [_ Hfrom].
    destruct (Hfrom x Hx) as [Hnil|(cat & l & _ & Hl & Hxl)];
      [by apply elem_of_nil in Hnil|].
    rewrite build_acd_lookup, lookup_empty in Hl.
    destruct (filter _ _) as [|r rest] eqn:F; [done|].
    inversion Hl; subst l.
    apply list_elem_of_fmap in Hxl as (r' & -> & Hr').
    apply (app_category_rows_ids w1).
    assert (r' ∈ r :: rest) as Hin by (by right).
    rewrite <-F in Hin. by apply list_elem_of_filter in Hin as [_ ?]. }
  split; [done|].
  destruct (CategoryReRanker_to_add self user app_score w) as [to_add|e] eqn:E.
  - left. apply (CategoryReRanker_call_Permutation _ _ _ to_add); [done|].
    intros x Hx. specialize (Hprefix to_add eq_refl x Hx).
    unfold slice_to in Hprefix. by eapply subseteq_take.
  - right. revert E. unfold CategoryReRanker_to_add, CategoryReRanker_call.
    destruct (CategoryReRanker_get_user_category_profile user w) as [ucp w1].
    destruct (CategoryReRanker_get_apps_category_dict app_score w1) as [acd w2].
    rewrite Hn. intros E. unfold CategoryReRanker_body. rewrite E. simpl.
    by rewrite (pick_exn _ _ _ _ E).
Qed.

Lemma CategoryReRanker_fresh_dictionary_witness :
  (∃ out, (CategoryReRanker_call (new_CategoryReRanker 1 4)
             (a_user [an_app 20 ["games"] []]) (seqZ 1 9) nine_games).1 = Ok out ∧
          out ≡ₚ seqZ 1 9) ∨
  (CategoryReRanker_call (new_CategoryReRanker 1 4)
     (a_user [an_app 20 ["games"] []]) (seqZ 1 9) nine_games).1 = Raise KeyError.
Proof.
  apply (proj2 (CategoryReRanker_fresh_dictionary (new_CategoryReRanker 1 4)
                  (a_user [an_app 20 ["games"] []]) (seqZ 1 9) nine_games 4
                  eq_refl eq_refl)).
Defined.

(** ** The scorer and the pipeline *)











(** ** The latest trained model *)

Section SortedGeneric.
Context {A : Type} (c : A → A → comparison).
Hypothesis c_antisym : ∀ x y, c y x = CompOpp (c x y).
Hypothesis c_trans : ∀ x y z, c x y ≠ Gt → c y z ≠ Gt → c x z ≠ Gt.

Lemma insort_StronglySorted (x : A) (l : list A) :
  StronglySorted (λ x y, c x y ≠ Gt) l →
  StronglySorted (λ x y, c x y ≠ Gt) (insort c x l).
Proof.
  induction 1 as [|y l Hl IH Hy]; simpl.
  - repeat constructor.
  - destruct (c x y) eqn:E.
    + constructor; [by constructor|]. constructor; [congruence|].
      eapply Forall_impl; [exact Hy|]. intros z Hz. simpl in Hz.
      apply (c_trans x y z); [congruence|done].
    + constructor; [by constructor|]. constructor; [congruence|].
      eapply Forall_impl; [exact Hy|]. intros z Hz. simpl in Hz.
      apply (c_trans x y z); [congruence|done].
    + constructor; [done|]. rewrite insort_Permutation.
      constructor; [|done]. rewrite c_antisym, E. done.
Qed.

Lemma sorted_StronglySorted (l : list A) :
  StronglySorted (λ x y, c x y ≠ Gt) (sorted c l).
Proof.
  induction l as [|x l IH]; simpl; [constructor|].
  by apply insort_StronglySorted.
Qed.

Lemma sorted_head (l : list A) (x : A) :
  head (sorted c l) = Some x → x ∈ l ∧ ∀ y, y ∈ l → y = x ∨ c x y ≠ Gt.
Proof.
  intros H. pose proof (sorted_StronglySorted l) as HS.
  pose proof (sorted_Permutation c l) as HP.
  destruct (sorted c l) as [|z s]; simpl in H; [done|]. inversion H; subst z.
  apply StronglySorted_inv in HS as [_ HF]. rewrite Forall_forall in HF.
  split; [rewrite <-HP; by left|].
  intros y Hy. rewrite <-HP in Hy. apply elem_of_cons in Hy as [?|Hy]; [by left|].
  right. by apply HF.
Qed.
End SortedGeneric.

(** X19. The lookup of the trained matrix fails exactly when the table
    holds no model of the requested kind; otherwise it yields a model of that
    kind whose id is the greatest among the models of that kind. *)
Theorem latest_most_recent (d : Z) (w : world) :
  (latest d w = None ↔ ∀ t, t ∈ TensorModel_objects w → dim t ≠ d) ∧
  (∀ t, latest d w = Some t →
     t ∈ TensorModel_objects w ∧ dim t = d ∧
     ∀ t', t' ∈ TensorModel_objects w → dim t' = d → model_id t' ≤ model_id t).
Proof.
  unfold latest.
  set (c := λ x y : TensorModel, model_id y ?= model_id x).
  set (l := filter (λ t, dim t = d) (TensorModel_objects w)).
  assert (∀ x y, c y x = CompOpp (c x y)) as Hanti
    by (intros x y; apply Z.compare_antisym).
  assert (∀ x y z, c x y ≠ Gt → c y z ≠ Gt → c x z ≠ Gt) as Htrans.
  { intros x y z. unfold c. rewrite !Z.compare_le_iff. lia. }
  split.
  - rewrite head_None. split.
    + intros H t Ht Hd.
      assert (t ∈ sorted c l) as Hin
        by (rewrite sorted_Permutation; apply list_elem_of_filter; done).
      rewrite H in Hin. by apply elem_of_nil in Hin.
    + intros H. destruct (sorted c l) as [|t s] eqn:E; [done|].
      assert (t ∈ l) as Hin by (rewrite <-(sorted_Permutation c l), E; by left).
      apply list_elem_of_filter in Hin as [Hd Ht]. by destruct (H t).
  - intros t H. apply (sorted_head c Hanti Htrans) in H as [Hin Hmax].
    apply list_elem_of_filter in Hin as [Hd Ht]. split_and!; [done..|].
    intros t' Ht' Hd'.
    destruct (Hmax t') as [->|Hle]; [by apply list_elem_of_filter| lia |].
    unfold c in Hle. rewrite Z.compare_le_iff in Hle. done.
Qed.

Lemma latest_most_recent_witness :
  {| model_id := 1; dim := 0; numpy_matrix := [[1%Q]] |} ∈ TensorModel_objects three_apps ∧
  dim {| model_id := 1; dim := 0; numpy_matrix := [[1%Q]] |} = 0 ∧
  ∀ t', t' ∈ TensorModel_objects three_apps → dim t' = 0 →
        model_id t' ≤ model_id {| model_id := 1; dim := 0; numpy_matrix := [[1%Q]] |}.
Proof.
  apply (proj2 (latest_most_recent 0 three_apps)
           {| model_id := 1; dim := 0; numpy_matrix := [[1%Q]] |}).
  reflexivity.
Defined.

(** ** Registration *)

Lemma keep_not_in_exn (xs items : list instance) (e : exn) :
  keep_not_in xs items = Raise e → e = AttributeError.
Proof.
  induction xs as [|x xs IH]; simpl; [done|].
  destruct (py_in x items) as [b|e'] eqn:E; simpl.
  - destruct (keep_not_in xs items); simpl; [done|]. intros [= <-]. by apply IH.
  - intros [= <-]. clear IH. induction items as [|y items IH]; simpl in E; [done|].
    destruct (decide (ob_id x = ob_id y)); [done|].
    destruct (py_eq x y) as [[|]|e''] eqn:E'; simpl in E; [done|by apply IH|].
    inversion E; subst. unfold py_eq, Filter_eq, getattr in E'.
    destruct (proper_subclass _ _);
      repeat (match type of E' with context [ob_dict ?o !! ?k] =>
                destruct (ob_dict o !! k) end; simpl in E'); congruence.
Qed.

(** X20. [unregisterFilter] with no argument removes nothing; given
    [f, ...] when every registered filter is the object [f] it empties the
    list; but as soon as some registered filter is another object than [f],
    and none of the objects carries an attribute [_Filter__class], the call
    raises [AttributeError], even when [f] itself is registered. *)
Theorem unregisterFilter_identity (self : controller) (f : instance)
    (rest : list instance) :
  unregisterFilter self [] = Ok self ∧
  ((∀ x, x ∈ _filters self → ob_id x = ob_id f) →
   unregisterFilter self (f :: rest)
   = Ok {| ctl_id := ctl_id self; ctl_class := ctl_class self;
           _filters := []; _rerankers := _rerankers self |}) ∧
  (ob_dict f !! "_Filter__class" = None →
   (∀ x, x ∈ _filters self → ob_dict x !! "_Filter__class" = None) →
   (∃ x, x ∈ _filters self ∧ ob_id x ≠ ob_id f) →
   unregisterFilter self (f :: rest) = Raise AttributeError).
Proof.
  unfold unregisterFilter. split_and!.
  - assert (keep_not_in (_filters self) [] = Ok (_filters self)) as ->.
    { induction (_filters self) as [|x xs IH]; simpl; [done|]. by rewrite IH. }
    simpl. by destruct self.
  - intros Hid.
    assert (keep_not_in (_filters self) (f :: rest) = Ok []) as ->; [|done].
    induction (_filters self) as [|x xs IH]; simpl; [done|].
    rewrite decide_True by (apply Hid; by left). simpl.
    rewrite IH; [done|]. intros y Hy. apply Hid. by right.
  - intros Hf Hattr (x & Hx & Hne).
    assert (keep_not_in (_filters self) (f :: rest) = Raise AttributeError) as ->; [|done].
    destruct (keep_not_in (_filters self) (f :: rest)) as [l|e] eqn:E;
      [|by rewrite (keep_not_in_exn _ _ _ E)].
    exfalso. revert l E. induction (_filters self) as [|y ys IH]; intros l E.
    + by apply elem_of_nil in Hx.
    + simpl in E. destruct (decide (ob_id y = ob_id f)) as [Hy|Hy].
      * simpl in E. destruct (keep_not_in ys (f :: rest)) as [l'|] eqn:E'; [|done].
        apply elem_of_cons in Hx as [->|Hx]; [done|].
        eapply IH; [|done|done]. intros z Hz. apply Hattr. by right.
      * unfold py_eq in E.
        rewrite !Filter_eq_AttributeError in E by (try done; apply Hattr; by left).
        by destruct (proper_subclass _ _).
Qed.

Lemma unregisterFilter_identity_witness :
  unregisterFilter
    (registerFilter suppressing_controller [new 2 cls_LocaleFilter])
    [new 1 cls_RepetitionFilter]
  = Raise AttributeError.
Proof.
  apply (proj2 (proj2 (unregisterFilter_identity
           (registerFilter suppressing_controller [new 2 cls_LocaleFilter])
           (new 1 cls_RepetitionFilter) []))).
  - reflexivity.
  - intros x Hx. repeat (apply elem_of_cons in Hx as [->|Hx]; [reflexivity|]).
    by apply elem_of_nil in Hx.
  - exists (set_controller suppressing_controller (new 2 cls_LocaleFilter)).
    split; [|simpl; lia].
    unfold registerFilter, suppressing_controller, registerFilter. simpl.
    apply list_elem_of_further, list_elem_of_here.
Defined.



(** ** External ids *)

Lemma foldl_insert_lookup (l : list FFOSApp) (m : gmap Z string) (k : Z) :
  (foldl (λ rs a, <[app_pk a := app_external_id a]> rs) m l !! k = None ↔
   m !! k = None ∧ ∀ a, a ∈ l → app_pk a ≠ k) ∧
  (∀ e, foldl (λ rs a, <[app_pk a := app_external_id a]> rs) m l !! k = Some e →
        m !! k = Some e ∨ ∃ a, a ∈ l ∧ app_pk a = k ∧ app_external_id a = e).
Proof.
  revert m. induction l as [|a l IH]; intros m; simpl.
  - split; [|by left]. split; [|by intros [? _]].
    intros H. split; [done|]. intros a Ha. by apply elem_of_nil in Ha.
  - destruct (IH (<[app_pk a := app_external_id a]> m)) as [Hnone Hsome]. split.
    + rewrite Hnone, lookup_insert_None. split.
      * intros [[Hm Hne] Hall]. split; [done|].
        intros b [->|Hb]%elem_of_cons; [done|by apply Hall].
      * intros [Hm Hall]. split_and!; [done|apply Hall; by left|].
        intros b Hb. apply Hall. by right.
    + intros e He. destruct (Hsome e He) as [Hm|(b & Hb & ? & ?)].
      * apply lookup_insert_Some in Hm as [[? ?]|[? ?]]; [|by left].
        right. exists a. split_and!; [by left|done..].
      * right. exists b. split_and!; [by right|done..].
Qed.

Lemma lookup_each_Ok (rs : gmap Z string) (keys : list Z) :
  (∀ k, k ∈ keys → is_Some (rs !! k)) →
  ∃ eids, lookup_each rs keys = Ok eids ∧ length eids = length keys ∧
          ∀ i k, keys !! i = Some k → eids !! i = rs !! k.
Proof.
  induction keys as [|r keys IH]; intros H; simpl.
  - exists []. split_and!; [done..|]. intros i k Hk. done.
  - destruct (H r) as [e He]; [by left|]. rewrite He.
    destruct IH as (eids & -> & Hlen & Hlook); [intros k Hk; apply H; by right|].
    exists (e :: eids). simpl. split_and!; [done|by rewrite Hlen|].
    intros [|i] k Hk; simpl in *; [by inversion Hk; subst|by apply Hlook].
Qed.

Lemma lookup_each_KeyError (rs : gmap Z string) (keys : list Z) (k : Z) :
  k ∈ keys → rs !! k = None → lookup_each rs keys = Raise KeyError.
Proof.
  induction keys as [|r keys IH]; intros Hk Hnone; [by apply elem_of_nil in Hk|].
  simpl. destruct (rs !! r) as [e|] eqn:E; [|done].
  apply elem_of_cons in Hk as [->|Hk]; [congruence|]. by rewrite IH.
Qed.

(** X22. [get_external_id_recommendations] translates the recommended keys
    one by one, in the same order: when every recommended key has an app in
    the table it returns as many external ids, the i-th being the external id
    of an app with the i-th key; when some recommended key has no app it
    raises [KeyError]. *)
Theorem get_external_id_recommendations_order (train : world → world)
    (self : controller) (user : FFOSUser) (n : Z) (fuel : nat) (w w' : world)
    (l : list Z) :
  get_recommendation train self user n fuel w = (Ok l, w') →
  ((∀ k, k ∈ l → ∃ a, a ∈ FFOSApp_objects w' ∧ app_pk a = k) →
   ∃ eids,
     get_external_id_recommendations train self user n fuel w = (Ok eids, w') ∧
     length eids = length l ∧
     ∀ i k e, l !! i = Some k → eids !! i = Some e →
       ∃ a, a ∈ FFOSApp_objects w' ∧ app_pk a = k ∧ app_external_id a = e) ∧
  (∀ k, k ∈ l → (∀ a, a ∈ FFOSApp_objects w' → app_pk a ≠ k) →
   get_external_id_recommendations train self user n fuel w = (Raise KeyError, w')).
Proof.
  intros Hrec. unfold get_external_id_recommendations. rewrite Hrec.
  unfold external_id_dict.
  set (rows := filter (λ a, app_pk a ∈ l) (FFOSApp_objects w')).
  split.
  - intros Hall.
    destruct (lookup_each_Ok
                (foldl (λ rs a, <[app_pk a := app_external_id a]> rs) ∅ rows) l)
      as (eids & -> & Hlen & Hlook).
    { intros k Hk. apply not_eq_None_Some. intros Hnone.
      apply (foldl_insert_lookup rows ∅ k) in Hnone as [_ Hnone].
      destruct (Hall k Hk) as (a & Ha & Hpk).
      apply (Hnone a); [|done]. apply list_elem_of_filter. by rewrite Hpk. }
    exists eids. split_and!; [done..|].
    intros i k e Hk He. rewrite (Hlook i k Hk) in He.
    apply (foldl_insert_lookup rows ∅ k) in He as [He|(a & Ha & ? & ?)];
      [by rewrite lookup_empty in He|].
    exists a. split_and!; [|done..]. by apply list_elem_of_filter in Ha as [_ ?].
  - intros k Hk Hnone. f_equal. apply (lookup_each_KeyError _ _ k Hk).
    apply (foldl_insert_lookup rows ∅ k). split; [apply lookup_empty|].
    intros a Ha. apply Hnone. by apply list_elem_of_filter in Ha as [_ ?].
Qed.

Lemma get_external_id_recommendations_order_witness :
  ∃ eids,
    get_external_id_recommendations train_nothing suppressing_controller
      (a_user [an_app 2 [] ["worldwide"]]) 10 5 three_apps = (Ok eids, three_apps) ∧
    length eids = length [1; 3; 2].
Proof.
  destruct (proj1 (get_external_id_recommendations_order train_nothing
                     suppressing_controller (a_user [an_app 2 [] ["worldwide"]])
                     10 5 three_apps three_apps [1; 3; 2] eq_refl))
    as (eids & E & Hlen & _).
  - intros k Hk.
    apply elem_of_cons in Hk as [->|Hk].
    { exists (an_app 1 [] ["worldwide"]). split; [apply list_elem_of_here|reflexivity]. }
    apply elem_of_cons in Hk as [->|Hk].
    { exists (an_app 3 [] ["worldwide"]).
      split; [apply list_elem_of_further, list_elem_of_further, list_elem_of_here
             |reflexivity]. }
    apply list_elem_of_singleton in Hk. subst k.
    exists (an_app 2 [] ["worldwide"]).
    split; [apply list_elem_of_further, list_elem_of_here|reflexivity].
  - exists eids. split; [exact E|exact Hlen].
Defined.

(** ** The score-phase region filter, in general *)



(** ** Installed apps after the sort *)

Lemma rank_lookup_order (l : list score) (i j : nat) (a b : Z) :
  (i < j)%nat → rank l !! i = Some a → rank l !! j = Some b →
  ∃ sa sb, l !! Z.to_nat (a - 1) = Some sa ∧ l !! Z.to_nat (b - 1) = Some sb ∧
           cmp sa sb ≠ Lt.
Proof.
  intros Hij Hi Hj. unfold rank in Hi, Hj.
  apply list_lookup_fmap_Some in Hi as (p & -> & Hp).
  apply list_lookup_fmap_Some in Hj as (q & -> & Hq).
  pose proof (StronglySorted_lookup _ _ i j p q
                (sorted_enumerate_from 0 l) Hij Hp Hq) as Hpq.
  assert (∀ r, r ∈ sorted by_score_desc (enumerate l) →
               l !! Z.to_nat (r.1 + 1 - 1) = Some r.2) as Hin.
  { intros r Hr. rewrite sorted_Permutation in Hr.
    apply enumerate_from_lookup in Hr as [? Hr]. rewrite <-Hr. f_equal. lia. }
  exists p.2, q.2. split_and!.
  - apply Hin. by eapply list_elem_of_lookup_2.
  - apply Hin. by eapply list_elem_of_lookup_2.
  - unfold before, by_score_desc in Hpq.
    destruct Hpq as [H|[H _]]; rewrite cmp_antisym in H;
      destruct (cmp p.2 q.2); done.
Qed.

(** X24. After [RepetitionFilter] and the sort step, every installed app is
    ranked after every app whose filtered score is finite: installed apps
    come last. *)
Theorem installed_ranked_last (user : FFOSUser) (xs out : list score)
    (i j : nat) (a b : Z) (q : Q) :
  RepetitionFilter_call user (Array1 xs) = Ok (Array1 out) →
  rank out !! i = Some a → rank out !! j = Some b →
  a ∈ app_pk <$> installed_apps user →
  out !! Z.to_nat (b - 1) = Some (Fin q) →
  (j < i)%nat.
Proof.
  intros Hf Hi Hj Ha Hb.
  assert (1 ≤ a ≤ Z.of_nat (length out)) as Hrange.
  { apply list_elem_of_lookup_2 in Hi. rewrite rank_Permutation in Hi.
    apply elem_of_seqZ in Hi. lia. }
  assert (out !! Z.to_nat (a - 1) = Some NegInf) as Hneg.
  { destruct (suppress_hits _ _ _ a Hf Ha) as (k & Hk & Hout).
    apply py_index_Some in Hk as (_ & _ & Hk). by rewrite <-Hk by lia. }
  destruct (Nat.lt_trichotomy i j) as [Hlt|[->|Hgt]]; [|congruence|done].
  destruct (rank_lookup_order out i j a b Hlt Hi Hj) as (sa & sb & Hsa & Hsb & Hcmp).
  rewrite Hneg in Hsa. rewrite Hb in Hsb. inversion Hsa; inversion Hsb; subst.
  done.
Qed.

Lemma installed_ranked_last_witness : (1 < 2)%nat.
Proof.
  apply (installed_ranked_last (a_user [an_app 2 [] []])
           [Fin (1 # 2); Fin (9 # 10); Fin (1 # 10)]
           [Fin (1 # 2); NegInf; Fin (1 # 10)] 2 1 2 3 (1 # 10));
    first [reflexivity | compute_done].
Defined.

(** ** The category profile *)

Lemma Counter_spec (rows : list category) (acc : list (category * Z)) :
  NoDup acc.*1 →
  NoDup (Counter rows acc).*1 ∧
  ∀ c k, (c, k) ∈ Counter rows acc ↔
    (∃ k0, (c, k0) ∈ acc ∧ k = k0 + Z.of_nat (length (filter (λ r, r = c) rows))) ∨
    ((c ∉ acc.*1) ∧ c ∈ rows ∧ k = Z.of_nat (length (filter (λ r, r = c) rows))).
Proof.
  revert acc. induction rows as [|c0 rows IH]; intros acc ND; simpl.
  - split; [done|]. intros c k. split.
    + intros H. left. exists k. split; [done|lia].
    + intros [(k0 & H & ->)|(_ & H & _)]; [|by apply elem_of_nil in H].
      by rewrite Z.add_0_r.
  - destruct (decide (c0 ∈ acc.*1)) as [Hin|Hnin].
    + set (bump := λ kv : category * Z, if decide (kv.1 = c0) then (kv.1, kv.2 + 1) else kv).
      assert ((bump <$> acc).*1 = acc.*1) as Hkeys.
      { rewrite <-list_fmap_compose. apply list_fmap_ext. intros i [c k] _.
        unfold bump. simpl. by destruct (decide (c = c0)). }
      destruct (IH (bump <$> acc)) as [HND Hspec]; [by rewrite Hkeys|].
      split; [done|]. intros c k. rewrite Hspec, Hkeys. clear Hspec IH.
      assert (∀ k1, (c, k1) ∈ bump <$> acc ↔
                ∃ k0, (c, k0) ∈ acc ∧ k1 = if decide (c = c0) then k0 + 1 else k0) as Hb.
      { intros k1. rewrite list_elem_of_fmap. split.
        - intros ([c' k0] & Heq & Hacc). unfold bump in Heq. simpl in Heq.
          destruct (decide (c' = c0)) as [->|Hne]; inversion Heq; subst.
          + exists k0. by rewrite decide_True.
          + exists k0. by rewrite decide_False.
        - intros (k0 & Hacc & ->). exists (c, k0). split; [|done].
          unfold bump. simpl. by destruct (decide (c = c0)). }
      destruct (decide (c0 = c)) as [->|Hne].
      * rewrite filter_cons_True by done. simpl. split.
        -- intros [(k1 & Hk1 & ->)|(Hc & _)]; [|done].
           apply Hb in Hk1 as (k0 & Hk0 & ->). rewrite decide_True by done.
           left. exists k0. split; [done|lia].
        -- intros [(k0 & Hk0 & ->)|(Hc & _)]; [|done].
           left. exists (k0 + 1). split; [|lia].
           apply Hb. exists k0. by rewrite decide_True.
      * rewrite filter_cons_False by done. split.
        -- intros [(k1 & Hk1 & ->)|(Hc & Hr & ->)].
           ++ apply Hb in Hk1 as (k0 & Hk0 & ->). rewrite decide_False by done.
              left. by exists k0.
           ++ right. split_and!; [done|by right|done].
        -- intros [(k0 & Hk0 & ->)|(Hc & Hr & ->)].
           ++ left. exists k0. split; [|done]. apply Hb. exists k0.
              by rewrite decide_False.
           ++ right. split_and!; [done| |done].
              by apply elem_of_cons in Hr as [?|?].
    + destruct (IH (acc ++ [(c0, 1)])) as [HND Hspec].
      { rewrite fmap_app. simpl. apply NoDup_app. split_and!; [done| |apply NoDup_singleton].
        intros x Hx ->%list_elem_of_singleton. done. }
      split; [done|]. intros c k. rewrite Hspec. clear Hspec IH.
      rewrite fmap_app. simpl.
      destruct (decide (c0 = c)) as [->|Hne].
      * rewrite filter_cons_True by done. simpl. split.
        -- intros [(k1 & Hk1 & ->)|(Hc & _)].
           ++ apply elem_of_app in Hk1 as [Hk1|Hk1].
              ** exfalso. apply Hnin. apply list_elem_of_fmap. by exists (c, k1).
              ** apply list_elem_of_singleton in Hk1. inversion Hk1; subst.
                 right. split_and!; [done|by left|lia].
           ++ exfalso. apply Hc. apply elem_of_app. right. by left.
        -- intros [(k0 & Hk0 & ->)|(Hc & _ & ->)].
           ++ exfalso. apply Hnin. apply list_elem_of_fmap. by exists (c, k0).
           ++ left. exists 1. split; [|lia]. apply elem_of_app. right. by left.
      * rewrite filter_cons_False by done. split.
        -- intros [(k1 & Hk1 & ->)|(Hc & Hr & ->)].
           ++ apply elem_of_app in Hk1 as [Hk1|Hk1].
              ** left. by exists k1.
              ** apply list_elem_of_singleton in Hk1. by inversion Hk1.
           ++ right. split_and!; [|by right|done].
              intros H. apply Hc. apply elem_of_app. by left.
        -- intros [(k0 & Hk0 & ->)|(Hc & Hr & ->)].
           ++ left. exists k0. split; [|done]. apply elem_of_app. by left.
           ++ right. split_and!; [| |done].
              ** intros [H|H%list_elem_of_singleton]%elem_of_app; [done|congruence].
              ** by apply elem_of_cons in Hr as [?|?].
Qed.

(** X25. With no profile cached for the user, [get_user_category_profile]
    lists every category of the installed apps exactly once, with mass (number
    of installed apps carrying the category, counted per category row) /
    (number of installed apps), in descending order of mass, and caches that
    list. *)
Theorem get_user_category_profile_fresh (user : FFOSUser) (w : world) :
  USER_CATEGORY_PROFILE (cache w) !! external_id user = None →
  let rows := installed_apps user ≫= category_rows in
  let ucp := (CategoryReRanker_get_user_category_profile user w).1 in
  StronglySorted (λ x y : category * Q, (y.2 <= x.2)%Q) ucp ∧
  NoDup ucp.*1 ∧
  (∀ c m, (c, m) ∈ ucp ↔
     c ∈ rows ∧
     m = (inject_Z (Z.of_nat (length (filter (λ r, r = c) rows)))
          / inject_Z (Z.of_nat (length (installed_apps user))))%Q) ∧
  USER_CATEGORY_PROFILE
    (cache (CategoryReRanker_get_user_category_profile user w).2) !! external_id user
  = Some ucp.
Proof.
  intros Hmiss rows ucp. subst ucp.
  unfold CategoryReRanker_get_user_category_profile. rewrite Hmiss. simpl.
  fold rows.
  set (c := λ x y : category * Q, (y.2 ?= x.2)%Q).
  set (f := λ kv : category * Z,
          (kv.1, (inject_Z kv.2 / inject_Z (Z.of_nat (length (installed_apps user))))%Q)).
  destruct (Counter_spec rows []) as [HND Hspec]; [constructor|].
  assert (∀ x y, c y x = CompOpp (c x y)) as Hanti
    by (intros x y; unfold c; symmetry; apply Qcompare_antisym).
  assert (∀ x y z, c x y ≠ Gt → c y z ≠ Gt → c x z ≠ Gt) as Htrans.
  { intros x y z. unfold c. rewrite <-!Qle_alt. intros ??. by eapply Qle_trans. }
  split_and!.
  - pose proof (sorted_StronglySorted c Hanti Htrans (f <$> Counter rows [])) as HS.
    induction HS as [|x l HS IH Hx]; constructor; [done|].
    eapply Forall_impl; [exact Hx|]. intros y Hy. simpl in Hy.
    unfold c in Hy. by apply Qle_alt.
  - rewrite sorted_Permutation, <-list_fmap_compose.
    assert (fst ∘ f = fst) as -> by done. done.
  - intros cat m. rewrite sorted_Permutation, list_elem_of_fmap. split.
    + intros ([cat' k] & Heq & Hin). unfold f in Heq. simpl in Heq.
      inversion Heq; subst.
      apply Hspec in Hin as [(k0 & H & _)|(_ & Hr & ->)]; [by apply elem_of_nil in H|].
      done.
    + intros [Hr ->]. eexists (cat, _). split; [reflexivity|].
      apply Hspec. right. split_and!; [apply not_elem_of_nil|done|done].
  - by rewrite lookup_insert_eq.
Qed.

Lemma get_user_category_profile_fresh_witness :
  StronglySorted (λ x y : category * Q, (y.2 <= x.2)%Q)
    (CategoryReRanker_get_user_category_profile
       (a_user [an_app 1 ["games"; "tools"] []; an_app 2 ["games"] []]) nine_games).1.
Proof.
  apply (get_user_category_profile_fresh
           (a_user [an_app 1 ["games"; "tools"] []; an_app 2 ["games"] []]) nine_games).
  reflexivity.
Defined.
